(** * smile: the keyboard response state [KeyPress] (src/smile/keyboard.py)

    A shallow embedding of the [KeyPress] state of smile/keyboard.py and of
    the parts of its collaborators (the [State] base class, the application's
    callback registry, [val] on references, the clock) that its methods call.

    Conventions of the embedding.
    - Python values that may sit in [keys] and [correct_resp] are [pyval].
    - Times (clock readings, durations, reaction times) are exact numbers in
      clock units, as [Z]; the floating representation is not modelled.
    - A method that can raise returns an [outcome]: the system after the
      method, with the mutations done before the exception kept.
    - A method that reads [clock.now()] takes the reading as [now].  *)

From Stdlib Require Import ZArith Bool List Ascii String Lia.
From stdpp Require Import gmap strings list.
Import ListNotations.

Local Open Scope Z_scope.
Local Open Scope string_scope.
Local Open Scope list_scope.

Set Warnings "-register-all".

(** ** Python values *)

Inductive pyval : Type :=
  | PNone
  | PBool (b : bool)
  | PInt (z : Z)
  | PStr (s : string)
  | PList (l : list pyval).

(** The numeric value of a Python [bool] ([True == 1], [False == 0]). *)
Definition bool_num (b : bool) : Z := if b then 1 else 0.

(** Python's [==] on these values: [bool] is a numeric type and compares
    with [int] by value, lists compare element by element, values of
    different kinds are unequal. *)
Fixpoint py_eq (a b : pyval) : bool :=
  match a, b with
  | PNone, PNone => true
  | PBool x, PBool y => Bool.eqb x y
  | PBool x, PInt y => Z.eqb (bool_num x) y
  | PInt x, PBool y => Z.eqb x (bool_num y)
  | PInt x, PInt y => Z.eqb x y
  | PStr x, PStr y => String.eqb x y
  | PList xs, PList ys =>
      (fix all2 (xs ys : list pyval) {struct xs} : bool :=
         match xs, ys with
         | [], [] => true
         | x :: xs', y :: ys' => py_eq x y && all2 xs' ys'
         | _, _ => false
         end) xs ys
  | _, _ => false
  end.

(** Python's [x in l] for a list [l]. *)
Definition py_in (x : pyval) (l : list pyval) : bool := existsb (py_eq x) l.

(** Python's truth value of an object. *)
Definition truthy (v : pyval) : bool :=
  match v with
  | PNone => false
  | PBool b => b
  | PInt z => negb (Z.eqb z 0)
  | PStr s => negb (String.eqb s "")
  | PList l => match l with [] => false | _ => true end
  end.

(** [isinstance(v, list)]. *)
Definition is_list (v : pyval) : bool :=
  match v with PList _ => true | _ => false end.

(** ** [str.upper] on byte strings: the letters a..z go to A..Z. *)

Definition is_lower (c : ascii) : bool :=
  let n := nat_of_ascii c in (97 <=? n)%nat && (n <=? 122)%nat.

Definition ascii_upper (c : ascii) : ascii :=
  if is_lower c then ascii_of_nat (nat_of_ascii c - 32) else c.

Fixpoint upper (s : string) : string :=
  match s with
  | EmptyString => EmptyString
  | String c r => String (ascii_upper c) (upper r)
  end.

(** Whether a string holds a lowercase letter. *)
Fixpoint has_lower (s : string) : bool :=
  match s with
  | EmptyString => false
  | String c r => is_lower c || has_lower r
  end.

(** ** Python exceptions raised by the modelled code *)

Inductive exn : Type :=
  | TypeError.

(** ** Key events, as the application hands them to a KEY_DOWN callback *)

(** [event_time]: a dictionary with the entries ['time'] and ['error']. *)
Record timestamp : Type := { time : Z; error : Z }.

Record key_event : Type := {
  keycode : Z * string;
  text : string;
  modifiers : list string;
  event_time : timestamp
}.

(** Lifecycle of a state. *)
Inductive phase_t : Type := Unstarted | Active | Finished.

Section KeyPress.

(** The rest of the experiment, as far as references read it. *)
Context {world : Type}.

(** Modelled from the spec: references (ref.py is not part of the sources).
    A reference is a deferred computation that evaluates to a value only
    when read and never mutates state; [val] reads a reference and returns
    any other object as it is. *)
Inductive lazy (A : Type) : Type :=
  | Lit (a : A)
  | Ref (f : world -> A).
Arguments Lit {A} a.
Arguments Ref {A} f.

Definition val {A : Type} (w : world) (x : lazy A) : A :=
  match x with
  | Lit a => a
  | Ref f => f w
  end.

(** [isinstance(x, Ref)], and [x == z] for an object that is a number or
    [None]. *)
Definition is_ref {A : Type} (x : lazy A) : bool :=
  match x with Ref _ => true | Lit _ => false end.

Definition literal_is (x : lazy (option Z)) (z : Z) : bool :=
  match x with
  | Lit (Some v) => Z.eqb v z
  | _ => false
  end.

(** ** The state object

    [kp_id] stands for the identity of the object, and so of its bound
    method [self._key_callback] in the callback registry. [phase],
    [state_time] and [end_time] are the attributes of the [State] base
    class that the methods here read or that the lifecycle sets. *)
Record KeyPress : Type := {
  kp_id : nat;
  phase : phase_t;
  state_time : option Z;
  end_time : option Z;
  keys : list pyval;
  correct_resp : list pyval;
  base_time_src : lazy (option Z);
  base_time : option Z;
  wait_duration : lazy (option Z);
  wait_until : lazy pyval;
  pressed : string;
  press_time : option timestamp;
  correct : bool;
  rt : option Z;
  waiting : bool
}.

(** Attribute assignments. *)
Definition set_phase (v : phase_t) (s : KeyPress) : KeyPress :=
  {| kp_id := kp_id s; phase := v; state_time := state_time s;
     end_time := end_time s; keys := keys s; correct_resp := correct_resp s;
     base_time_src := base_time_src s; base_time := base_time s;
     wait_duration := wait_duration s; wait_until := wait_until s;
     pressed := pressed s; press_time := press_time s; correct := correct s;
     rt := rt s; waiting := waiting s |}.

Definition set_state_time (v : option Z) (s : KeyPress) : KeyPress :=
  {| kp_id := kp_id s; phase := phase s; state_time := v;
     end_time := end_time s; keys := keys s; correct_resp := correct_resp s;
     base_time_src := base_time_src s; base_time := base_time s;
     wait_duration := wait_duration s; wait_until := wait_until s;
     pressed := pressed s; press_time := press_time s; correct := correct s;
     rt := rt s; waiting := waiting s |}.

Definition set_end_time (v : option Z) (s : KeyPress) : KeyPress :=
  {| kp_id := kp_id s; phase := phase s; state_time := state_time s;
     end_time := v; keys := keys s; correct_resp := correct_resp s;
     base_time_src := base_time_src s; base_time := base_time s;
     wait_duration := wait_duration s; wait_until := wait_until s;
     pressed := pressed s; press_time := press_time s; correct := correct s;
     rt := rt s; waiting := waiting s |}.

Definition set_base_time (v : option Z) (s : KeyPress) : KeyPress :=
  {| kp_id := kp_id s; phase := phase s; state_time := state_time s;
     end_time := end_time s; keys := keys s; correct_resp := correct_resp s;
     base_time_src := base_time_src s; base_time := v;
     wait_duration := wait_duration s; wait_until := wait_until s;
     pressed := pressed s; press_time := press_time s; correct := correct s;
     rt := rt s; waiting := waiting s |}.

Definition set_pressed (v : string) (s : KeyPress) : KeyPress :=
  {| kp_id := kp_id s; phase := phase s; state_time := state_time s;
     end_time := end_time s; keys := keys s; correct_resp := correct_resp s;
     base_time_src := base_time_src s; base_time := base_time s;
     wait_duration := wait_duration s; wait_until := wait_until s;
     pressed := v; press_time := press_time s; correct := correct s;
     rt := rt s; waiting := waiting s |}.

Definition set_press_time (v : option timestamp) (s : KeyPress) : KeyPress :=
  {| kp_id := kp_id s; phase := phase s; state_time := state_time s;
     end_time := end_time s; keys := keys s; correct_resp := correct_resp s;
     base_time_src := base_time_src s; base_time := base_time s;
     wait_duration := wait_duration s; wait_until := wait_until s;
     pressed := pressed s; press_time := v; correct := correct s;
     rt := rt s; waiting := waiting s |}.

Definition set_correct (v : bool) (s : KeyPress) : KeyPress :=
  {| kp_id := kp_id s; phase := phase s; state_time := state_time s;
     end_time := end_time s; keys := keys s; correct_resp := correct_resp s;
     base_time_src := base_time_src s; base_time := base_time s;
     wait_duration := wait_duration s; wait_until := wait_until s;
     pressed := pressed s; press_time := press_time s; correct := v;
     rt := rt s; waiting := waiting s |}.

Definition set_rt (v : option Z) (s : KeyPress) : KeyPress :=
  {| kp_id := kp_id s; phase := phase s; state_time := state_time s;
     end_time := end_time s; keys := keys s; correct_resp := correct_resp s;
     base_time_src := base_time_src s; base_time := base_time s;
     wait_duration := wait_duration s; wait_until := wait_until s;
     pressed := pressed s; press_time := press_time s; correct := correct s;
     rt := v; waiting := waiting s |}.

Definition set_waiting (v : bool) (s : KeyPress) : KeyPress :=
  {| kp_id := kp_id s; phase := phase s; state_time := state_time s;
     end_time := end_time s; keys := keys s; correct_resp := correct_resp s;
     base_time_src := base_time_src s; base_time := base_time s;
     wait_duration := wait_duration s; wait_until := wait_until s;
     pressed := pressed s; press_time := press_time s; correct := correct s;
     rt := rt s; waiting := v |}.

(** ** The application's callback registry *)

(** The state together with the registry [exp.app] it subscribes to. *)
Record system : Type := {
  callbacks : gmap string (list nat);
  self : KeyPress
}.

Definition with_self (s : KeyPress) (sy : system) : system :=
  {| callbacks := callbacks sy; self := s |}.

Definition with_callbacks (m : gmap string (list nat)) (sy : system) : system :=
  {| callbacks := m; self := self sy |}.

(** The callbacks registered for an event kind, in registration order. *)
Definition registered_for (kind : string) (m : gmap string (list nat)) : list nat :=
  default [] (m !! kind).

(** [list.remove]: drops the first occurrence. *)
Fixpoint remove_first (x : nat) (l : list nat) : list nat :=
  match l with
  | [] => []
  | y :: r => if Nat.eqb x y then r else y :: remove_first x r
  end.

(** Modelled from the spec: the event dispatcher of the application (the
    module that defines [exp.app] is not part of the sources). It is a
    mapping from event kind to an ordered list of callback registrations,
    with [add_callback(kind, fn)] and [remove_callback(kind, fn)]. *)
Definition add_callback (kind : string) (cb : nat) (m : gmap string (list nat))
  : gmap string (list nat) :=
  <[kind := registered_for kind m ++ [cb]]> m.

Definition remove_callback (kind : string) (cb : nat) (m : gmap string (list nat))
  : gmap string (list nat) :=
  match m !! kind with
  | Some l => <[kind := remove_first cb l]> m
  | None => m
  end.

Inductive outcome : Type :=
  | Ok (sy : system)
  | Raised (e : exn) (sy : system).

(** ** The methods of [KeyPress] (keyboard.py) *)

(** [KeyPress.__init__]. The arguments left at their defaults in the source
    are [keys = PNone], [correct_resp = PNone], [base_time = Lit None],
    [until = Lit PNone] and [duration = Lit (Some (-1))]; [ident] is the
    identity of the new object. The base class constructor leaves the
    state unstarted, with no state time and no end time. *)
Definition __init__ (ident : nat) (keys_arg correct_resp_arg : pyval)
    (base_time_arg : lazy (option Z)) (until : lazy pyval)
    (duration : lazy (option Z)) : KeyPress :=
  {| kp_id := ident;
     phase := Unstarted;
     state_time := None;
     end_time := None;
     keys := match keys_arg with PList l => l | v => [v] end;
     correct_resp := match correct_resp_arg with PList l => l | v => [v] end;
     base_time_src := base_time_arg;
     base_time := None;
     wait_duration :=
       if negb (is_ref duration) && literal_is duration (-1)
       then Lit None else duration;
     wait_until := until;
     pressed := "";
     press_time := None;
     correct := false;
     rt := None;
     waiting := false |}.

(** [KeyPress._enter]: reset the response fields and the base time. *)
Definition _enter (s : KeyPress) : KeyPress :=
  set_base_time None
    (set_rt None (set_correct false (set_press_time None (set_pressed "" s)))).

(** [KeyPress._leave]: remove the keyboard callback. *)
Definition _leave (sy : system) : system :=
  let sy := with_callbacks
              (remove_callback "KEY_DOWN" (kp_id (self sy)) (callbacks sy)) sy in
  with_self (set_waiting false (self sy)) sy.

(** Modelled from the spec: [State.enter] and [State.leave] (state.py is not
    part of the sources). Entering captures the start time, makes the state
    active and runs the state's own [_enter]. Leaving runs the state's own
    [_leave], captures the end time and finishes the state; a second
    invocation, on a state that is not active, is a no-op. *)
Definition enter (now : Z) (sy : system) : system :=
  let s := set_phase Active (set_state_time (Some now) (self sy)) in
  with_self (_enter s) sy.

Definition leave (now : Z) (sy : system) : system :=
  match phase (self sy) with
  | Active =>
      let sy := _leave sy in
      with_self (set_phase Finished (set_end_time (Some now) (self sy))) sy
  | _ => sy
  end.

(** The test of [_key_callback]: [None in keys or sym_str in keys]. *)
Definition sym_str (ev : key_event) : string := upper (snd (keycode ev)).

Definition accepts (ks : list pyval) (ev : key_event) : bool :=
  py_in PNone ks || py_in (PStr (sym_str ev)) ks.

(** [KeyPress._key_callback]. [keys] and [correct_resp] hold plain values,
    which [val] returns as they are. The subtraction raises [TypeError]
    when [base_time] is [None]; [pressed] and [press_time] are assigned
    before it. [claim_exceptions] only names the state as the owner of an
    exception raised in the callback and is left out. *)
Definition _key_callback (ev : key_event) (now : Z) (sy : system) : outcome :=
  let s := self sy in
  if accepts (keys s) ev then
    let s := set_pressed (sym_str ev) s in
    let s := set_press_time (Some (event_time ev)) s in
    match base_time s with
    | None => Raised TypeError (with_self s sy)
    | Some b =>
        let s := set_rt (Some (time (event_time ev) - b)) s in
        let s := if py_in (PStr (pressed s)) (correct_resp s)
                 then set_correct true s else s in
        Ok (leave now (with_self s sy))
    end
  else Ok sy.

(** [KeyPress._callback], in the three steps of its body. *)

(** Lines 144-147: register the key callback unless already waiting. *)
Definition _callback_subscribe (sy : system) : system :=
  if waiting (self sy) then sy
  else
    let sy := with_callbacks
                (add_callback "KEY_DOWN" (kp_id (self sy)) (callbacks sy)) sy in
    with_self (set_waiting true (self sy)) sy.

(** Lines 148-152: fill the base time, from its source or the state time. *)
Definition _callback_base_time (w : world) (sy : system) : system :=
  let s := self sy in
  match base_time s with
  | Some _ => sy
  | None =>
      let s := set_base_time (val w (base_time_src s)) s in
      match base_time s with
      | Some _ => with_self s sy
      | None => with_self (set_base_time (state_time s) s) sy
      end
  end.

(** Lines 153-158: the time-based exits. The sum raises [TypeError] when
    [base_time] is [None]; it is computed only when a duration is set. *)
Definition _callback_exit (w : world) (now : Z) (sy : system) : outcome :=
  let s := self sy in
  let timed_out :=
    match val w (wait_duration s) with
    | None => Some false
    | Some d =>
        match base_time s with
        | None => None
        | Some b => Some (Z.geb now (b + d))
        end
    end in
  match timed_out with
  | None => Raised TypeError sy
  | Some true => Ok (leave now sy)
  | Some false =>
      if truthy (val w (wait_until s)) then Ok (leave now sy) else Ok sy
  end.

Definition _callback (w : world) (now : Z) (sy : system) : outcome :=
  let sy := _callback_subscribe sy in
  let sy := _callback_base_time w sy in
  _callback_exit w now sy.

(** ** The scheduler and the event source *)

(** Modelled from the spec: delivery of a KEY_DOWN event by the application
    (not part of the sources). The callbacks registered for the kind are
    called in order, over a snapshot of the list; a callback of another
    owner does not touch this state. The first exception ends delivery. *)
Fixpoint fire (cbs : list nat) (ev : key_event) (now : Z) (sy : system)
  : outcome :=
  match cbs with
  | [] => Ok sy
  | cb :: rest =>
      if Nat.eqb cb (kp_id (self sy)) then
        match _key_callback ev now sy with
        | Ok sy' => fire rest ev now sy'
        | Raised e sy' => Raised e sy'
        end
      else fire rest ev now sy
  end.

Definition trigger_key_down (ev : key_event) (now : Z) (sy : system) : outcome :=
  fire (registered_for "KEY_DOWN" (callbacks sy)) ev now sy.

(** What can happen to the state and its registry. *)
Inductive input : Type :=
  | Enter (now : Z)
  | Tick (w : world) (now : Z)
  | KeyDown (ev : key_event) (now : Z)
  | Leave (now : Z)
  | OtherAdd (kind : string) (cb : nat)
  | OtherRemove (kind : string) (cb : nat).

(** Modelled from the spec: the scheduler (state.py and the experiment are
    not part of the sources). A state is entered only while it is not
    active; it is polled only while it is active, each tick running
    [_callback] to completion; key events arrive between ticks; the parent
    may force [leave]; other states add and remove registrations of their
    own callbacks, never this state's. *)
Definition step (i : input) (sy : system) : outcome :=
  match i with
  | Enter now =>
      match phase (self sy) with
      | Active => Ok sy
      | _ => Ok (enter now sy)
      end
  | Tick w now =>
      match phase (self sy) with
      | Active => _callback w now sy
      | _ => Ok sy
      end
  | KeyDown ev now => trigger_key_down ev now sy
  | Leave now => Ok (leave now sy)
  | OtherAdd kind cb =>
      if Nat.eqb cb (kp_id (self sy)) then Ok sy
      else Ok (with_callbacks (add_callback kind cb (callbacks sy)) sy)
  | OtherRemove kind cb =>
      if Nat.eqb cb (kp_id (self sy)) then Ok sy
      else Ok (with_callbacks (remove_callback kind cb (callbacks sy)) sy)
  end.

Fixpoint run (ins : list input) (sy : system) : outcome :=
  match ins with
  | [] => Ok sy
  | i :: rest =>
      match step i sy with
      | Ok sy' => run rest sy'
      | Raised e sy' => Raised e sy'
      end
  end.

(** The system right after construction of the state: nothing of the state
    is registered yet. *)
Definition fresh (sy : system) : Prop :=
  (exists ident k c b u d, self sy = __init__ ident k c b u d) /\
  ~ In (kp_id (self sy)) (registered_for "KEY_DOWN" (callbacks sy)).

(** The systems the scheduler can bring about. *)
Inductive reachable : system -> Prop :=
  | reachable_fresh sy : fresh sy -> reachable sy
  | reachable_step i sy sy' :
      reachable sy -> step i sy = Ok sy' -> reachable sy'.

(** The no-response defaults of the response fields. *)
Definition no_response (s : KeyPress) : Prop :=
  pressed s = "" /\ press_time s = None /\ correct s = false /\ rt s = None.

(** Whether the key callback of the state is registered. *)
Definition subscribed (sy : system) : Prop :=
  In (kp_id (self sy)) (registered_for "KEY_DOWN" (callbacks sy)).

(** The system that [_key_callback] hands to [leave] after an accepted
    event. *)
Definition recorded (ev : key_event) (b : Z) (sy : system) : system :=
  let s := set_rt (Some (time (event_time ev) - b))
             (set_press_time (Some (event_time ev))
                (set_pressed (sym_str ev) (self sy))) in
  with_self (if py_in (PStr (pressed s)) (correct_resp s)
             then set_correct true s else s) sy.

(** The response fields, and the configuration fixed at construction. *)
Definition response (s : KeyPress)
  : string * option timestamp * bool * option Z :=
  (pressed s, press_time s, correct s, rt s).

Definition config (s : KeyPress)
  : nat * list pyval * list pyval * lazy (option Z) * lazy (option Z)
    * lazy pyval :=
  (kp_id s, keys s, correct_resp s, base_time_src s, wait_duration s,
   wait_until s).

(** The base time a tick works with: the one already set, or else the value
    of the base time given at construction, or else the state time. *)
Definition base_time_at_tick (w : world) (s : KeyPress) : option Z :=
  match base_time s with
  | Some b => Some b
  | None =>
      match val w (base_time_src s) with
      | Some b => Some b
      | None => state_time s
      end
  end.

(** Whether the tick at [now] leaves, given the base time [b]. *)
Definition tick_leaves (w : world) (now b : Z) (sy : system) : bool :=
  match val w (wait_duration (self sy)) with
  | Some d => Z.geb now (b + d)
  | None => false
  end || truthy (val w (wait_until (self sy))).

(** Inputs that stay within one activation, and those among them that
    bring no key the state accepts. *)
Definition within_activation (i : input) : bool :=
  match i with Enter _ => false | _ => true end.


(** The number of registrations of the state's key callback. *)
Definition registrations (sy : system) : nat :=
  count_occ Nat.eq_dec (registered_for "KEY_DOWN" (callbacks sy))
    (kp_id (self sy)).

(** The invariant of the lifecycle: the callback is registered exactly once
    while the state waits and not at all otherwise; a waiting state is
    active and has its base time; an active state has its state time and
    no response yet, and no base time before its first tick. *)
Record inv (sy : system) : Prop := {
  inv_registrations :
    registrations sy = if waiting (self sy) then 1%nat else 0%nat;
  inv_waiting :
    waiting (self sy) = true ->
    phase (self sy) = Active /\ exists b, base_time (self sy) = Some b;
  inv_active :
    phase (self sy) = Active ->
    (exists t, state_time (self sy) = Some t) /\ no_response (self sy);
  inv_not_waiting :
    phase (self sy) = Active -> waiting (self sy) = false ->
    base_time (self sy) = None
}.

(** Inputs that neither finish the state from outside nor bring a key it
    accepts: ticks, other keys, the registrations of other states. *)
Definition idle (ks : list pyval) (i : input) : bool :=
  match i with
  | Enter _ | Leave _ => false
  | KeyDown ev _ => negb (accepts ks ev)
  | _ => true
  end.

(** The inputs that run code of the state itself. *)
Definition own_input (i : input) : bool :=
  match i with
  | OtherAdd _ _ | OtherRemove _ _ => false
  | _ => true
  end.

(** A state that has recorded a response: it is finished, the key it holds
    passed the test against [keys], and the other response fields are the
    ones computed from that key, the time stamp and the base time. *)
Definition answered (s : KeyPress) : Prop :=
  exists ts b,
    phase s = Finished /\
    waiting s = false /\
    press_time s = Some ts /\
    base_time s = Some b /\
    rt s = Some (time ts - b) /\
    correct s = py_in (PStr (pressed s)) (correct_resp s) /\
    py_in PNone (keys s) || py_in (PStr (pressed s)) (keys s) = true.

(** The registrations of a kind that belong to other owners, in order. *)
Definition foreign (kind : string) (sy : system) : list nat :=
  List.filter (fun cb => negb (Nat.eqb cb (kp_id (self sy))))
    (registered_for kind (callbacks sy)).

(** Two systems with the same state identity that agree on the
    registrations of every other kind and on those of other owners. *)
Definition same_foreign (sy sy' : system) : Prop :=
  kp_id (self sy') = kp_id (self sy) /\
  forall kind,
    foreign kind sy' = foreign kind sy /\
    (kind <> "KEY_DOWN" ->
     registered_for kind (callbacks sy') = registered_for kind (callbacks sy)).

End KeyPress.

Arguments Lit {world A} a.
Arguments Ref {world A} f.

(** ** Examples

    The state of the test script of keyboard.py,
    [KeyPress(keys=['J','K'], correct_resp='K')], here with a duration,
    in an experiment whose references read nothing. Times are in
    milliseconds. *)

Definition key (name : string) (t : Z) : key_event :=
  {| keycode := (0, name); text := name; modifiers := [];
     event_time := {| time := t; error := 0 |} |}.

Definition jk_state : @KeyPress unit :=
  __init__ 7 (PList [PStr "J"; PStr "K"]) (PStr "K") (Lit None) (Lit PNone)
    (Lit (Some 2000)).

Definition jk_system : @system unit := {| callbacks := ∅; self := jk_state |}.

Definition jk_entered : @system unit := enter 1000 jk_system.

Definition jk_waiting : @system unit :=
  _callback_base_time tt (_callback_subscribe jk_entered).

Definition jk_answered : @system unit :=
  leave 1421 (recorded (key "k" 1420) 1000 jk_waiting).

Definition jk_timed_out : @system unit := leave 3000 jk_waiting.

(** The same state with a base time given at construction. *)
Definition based_state : @KeyPress unit :=
  __init__ 8 PNone PNone (Lit (Some 10)) (Lit PNone) (Lit (Some 5)).

Definition based_entered : @system unit :=
  enter 100 {| callbacks := ∅; self := based_state |}.

(** A state with [until=1000] and no duration. *)
Definition until_state : @KeyPress unit :=
  __init__ 9 PNone PNone (Lit None) (Lit (PInt 1000)) (Lit (Some (-1))).

Definition until_entered : @system unit :=
  enter 100 {| callbacks := ∅; self := until_state |}.

(** [KeyPress()] of the test script: any key, no correct response, no
    bound; in a registry where another state has a KEY_DOWN callback. *)
Definition any_key_state : @KeyPress unit :=
  __init__ 5 PNone PNone (Lit None) (Lit PNone) (Lit (Some (-1))).

Definition any_key_system : @system unit :=
  {| callbacks := <["KEY_DOWN" := [3%nat]]> ∅; self := any_key_state |}.

Definition any_key_entered : @system unit := enter 500 any_key_system.

Definition any_key_waiting : @system unit :=
  _callback_base_time tt (_callback_subscribe any_key_entered).

Definition any_key_answered : @system unit :=
  leave 761 (recorded (key "spacebar" 760) 500 any_key_waiting).

(** The state of the first example, entered again after its answer. *)
Definition jk_again : @system unit :=
  _callback_base_time tt (_callback_subscribe (enter 5000 jk_answered)).

(** A state with a lowercase entry: [keys=['j','K']], [correct_resp='j']. *)
Definition lower_state : @KeyPress unit :=
  __init__ 11 (PList [PStr "j"; PStr "K"]) (PStr "j") (Lit None) (Lit PNone)
    (Lit (Some 2000)).

Definition lower_waiting : @system unit :=
  _callback_base_time tt
    (_callback_subscribe (enter 1000 {| callbacks := ∅; self := lower_state |})).

(** * Lemmas *)

Section Facts.

Context {world : Type}.

Implicit Types (sy : @system world).

(** ** Strings *)

Lemma ascii_upper_not_lower c : is_lower (ascii_upper c) = false.
Proof.
  destruct c as [[] [] [] [] [] [] [] []]; vm_compute; reflexivity.
Qed.

Lemma ascii_upper_fixed c : is_lower c = false -> ascii_upper c = c.
Proof. unfold ascii_upper. intros ->. reflexivity. Qed.

Lemma ascii_upper_moves c : is_lower c = true -> ascii_upper c <> c.
Proof.
  destruct c as [[] [] [] [] [] [] [] []]; vm_compute; congruence.
Qed.

Lemma upper_has_no_lower s : has_lower (upper s) = false.
Proof.
  induction s as [|c r IH]; simpl; [reflexivity|].
  rewrite ascii_upper_not_lower, IH. reflexivity.
Qed.

Lemma upper_fixed s : has_lower s = false -> upper s = s.
Proof.
  induction s as [|c r IH]; simpl; [reflexivity|].
  intros H. apply orb_false_iff in H as [Hc Hr].
  rewrite ascii_upper_fixed, IH by assumption. reflexivity.
Qed.

Lemma upper_idempotent s : upper (upper s) = upper s.
Proof. apply upper_fixed, upper_has_no_lower. Qed.

Lemma upper_differs s k : has_lower k = true -> upper s <> k.
Proof.
  intros Hk E. rewrite <- E, upper_has_no_lower in Hk. discriminate.
Qed.

(** ** Python equality and membership *)

Lemma py_eq_str s v : py_eq (PStr s) v = true <-> v = PStr s.
Proof.
  destruct v; simpl; split; try congruence.
  - intros H. apply String.eqb_eq in H. congruence.
  - intros [= ->]. apply String.eqb_refl.
Qed.

Lemma py_eq_none v : py_eq PNone v = true <-> v = PNone.
Proof. destruct v; simpl; split; congruence. Qed.

Lemma py_in_str s l : py_in (PStr s) l = true <-> In (PStr s) l.
Proof.
  unfold py_in. rewrite existsb_exists. split.
  - intros (v & Hin & Heq). apply py_eq_str in Heq. subst. assumption.
  - intros Hin. exists (PStr s). split; [assumption|]. apply py_eq_str.
    reflexivity.
Qed.

Lemma py_in_none l : py_in PNone l = true <-> In PNone l.
Proof.
  unfold py_in. rewrite existsb_exists. split.
  - intros (v & Hin & Heq). apply py_eq_none in Heq. subst. assumption.
  - intros Hin. exists PNone. split; [assumption|reflexivity].
Qed.

(** ** The registry *)

Lemma registered_for_add kind cb m :
  registered_for kind (add_callback kind cb m) = registered_for kind m ++ [cb].
Proof. unfold add_callback, registered_for. rewrite lookup_insert_eq. reflexivity. Qed.

Lemma registered_for_add_ne kind kind' cb m :
  kind' <> kind ->
  registered_for kind (add_callback kind' cb m) = registered_for kind m.
Proof.
  intros H. unfold add_callback. unfold registered_for at 1.
  rewrite lookup_insert_ne by assumption. reflexivity.
Qed.

Lemma registered_for_remove kind cb m :
  registered_for kind (remove_callback kind cb m)
  = remove_first cb (registered_for kind m).
Proof.
  unfold remove_callback, registered_for.
  destruct (m !! kind) as [l|] eqn:E; simpl.
  - rewrite lookup_insert_eq. reflexivity.
  - rewrite E. reflexivity.
Qed.

Lemma registered_for_remove_ne kind kind' cb m :
  kind' <> kind ->
  registered_for kind (remove_callback kind' cb m) = registered_for kind m.
Proof.
  intros H. unfold remove_callback.
  destruct (m !! kind') as [l|]; [|reflexivity].
  unfold registered_for. rewrite lookup_insert_ne by assumption. reflexivity.
Qed.

Lemma count_occ_remove_first_eq x l :
  count_occ Nat.eq_dec (remove_first x l) x
  = Nat.pred (count_occ Nat.eq_dec l x).
Proof.
  induction l as [|y r IH]; simpl; [reflexivity|].
  destruct (Nat.eqb_spec x y) as [->|Hne].
  - destruct (Nat.eq_dec y y); [reflexivity|congruence].
  - simpl. destruct (Nat.eq_dec y x); [congruence|assumption].
Qed.

Lemma count_occ_remove_first_ne x y l :
  x <> y ->
  count_occ Nat.eq_dec (remove_first x l) y = count_occ Nat.eq_dec l y.
Proof.
  intros Hne. induction l as [|z r IH]; simpl; [reflexivity|].
  destruct (Nat.eqb_spec x z) as [->|Hxz].
  - destruct (Nat.eq_dec z y); [congruence|reflexivity].
  - simpl. destruct (Nat.eq_dec z y); rewrite IH; reflexivity.
Qed.

Lemma count_occ_snoc_eq x l :
  count_occ Nat.eq_dec (l ++ [x]) x = S (count_occ Nat.eq_dec l x).
Proof.
  rewrite count_occ_app. simpl.
  destruct (Nat.eq_dec x x); [lia|congruence].
Qed.

Lemma count_occ_snoc_ne x y l :
  y <> x ->
  count_occ Nat.eq_dec (l ++ [y]) x = count_occ Nat.eq_dec l x.
Proof.
  intros H. rewrite count_occ_app. simpl.
  destruct (Nat.eq_dec y x); [congruence|lia].
Qed.

(** ** Frame facts: what the methods leave alone *)

Lemma leave_kp_id now sy : kp_id (self (leave now sy)) = kp_id (self sy).
Proof. unfold leave. destruct (phase (self sy)); reflexivity. Qed.

Lemma leave_response now sy :
  pressed (self (leave now sy)) = pressed (self sy) /\
  press_time (self (leave now sy)) = press_time (self sy) /\
  correct (self (leave now sy)) = correct (self sy) /\
  rt (self (leave now sy)) = rt (self sy) /\
  base_time (self (leave now sy)) = base_time (self sy).
Proof. unfold leave. destruct (phase (self sy)); simpl; auto. Qed.

Lemma leave_not_active now sy :
  phase (self sy) <> Active -> leave now sy = sy.
Proof. unfold leave. destruct (phase (self sy)); congruence. Qed.

Lemma leave_phase now sy : phase (self (leave now sy)) <> Active.
Proof.
  unfold leave. destruct (phase (self sy)) eqn:E; simpl; congruence.
Qed.

Lemma leave_active now sy :
  phase (self sy) = Active ->
  phase (self (leave now sy)) = Finished /\
  waiting (self (leave now sy)) = false /\
  end_time (self (leave now sy)) = Some now /\
  registered_for "KEY_DOWN" (callbacks (leave now sy))
  = remove_first (kp_id (self sy)) (registered_for "KEY_DOWN" (callbacks sy)).
Proof.
  intros H. unfold leave. rewrite H. simpl.
  rewrite registered_for_remove. auto.
Qed.

Lemma key_callback_kp_id ev now sy :
  match _key_callback ev now sy with
  | Ok sy' | Raised _ sy' => kp_id (self sy') = kp_id (self sy)
  end.
Proof.
  unfold _key_callback. destruct (accepts _ _); [|reflexivity].
  simpl. destruct (base_time (self sy)); [|reflexivity].
  rewrite leave_kp_id. simpl.
  destruct (py_in _ _); reflexivity.
Qed.

(** ** Delivery of key events *)

Lemma fire_not_registered cbs ev now sy :
  ~ In (kp_id (self sy)) cbs -> fire cbs ev now sy = Ok sy.
Proof.
  induction cbs as [|cb rest IH]; simpl; [reflexivity|].
  intros H. destruct (Nat.eqb_spec cb (kp_id (self sy))) as [->|Hne].
  - exfalso. apply H. left. reflexivity.
  - apply IH. intros Hin. apply H. right. assumption.
Qed.

Lemma fire_registered_once cbs ev now sy :
  count_occ Nat.eq_dec cbs (kp_id (self sy)) = 1%nat ->
  fire cbs ev now sy = _key_callback ev now sy.
Proof.
  induction cbs as [|cb rest IH]; simpl; [discriminate|].
  destruct (Nat.eq_dec cb (kp_id (self sy))) as [->|Hne].
  - intros [= H0]. rewrite Nat.eqb_refl.
    pose proof (key_callback_kp_id ev now sy) as Hid.
    destruct (_key_callback ev now sy) as [sy'|e sy']; [|reflexivity].
    apply fire_not_registered. rewrite Hid.
    apply (count_occ_not_In Nat.eq_dec). assumption.
  - intros H. destruct (Nat.eqb_spec cb (kp_id (self sy))); [congruence|].
    apply IH. assumption.
Qed.

Lemma subscribed_iff_waiting sy :
  inv sy -> subscribed sy <-> waiting (self sy) = true.
Proof.
  intros [Hr _ _ _]. unfold subscribed, registrations in *.
  rewrite (count_occ_In Nat.eq_dec), Hr.
  destruct (waiting (self sy)); split; intros; try lia; congruence.
Qed.

Lemma trigger_key_down_subscribed ev now sy :
  inv sy -> subscribed sy ->
  trigger_key_down ev now sy = _key_callback ev now sy.
Proof.
  intros Hinv Hsub. unfold trigger_key_down. apply fire_registered_once.
  apply subscribed_iff_waiting in Hsub; [|assumption].
  destruct Hinv as [Hr _ _ _]. unfold registrations in Hr.
  rewrite Hr, Hsub. reflexivity.
Qed.

Lemma trigger_key_down_not_subscribed ev now sy :
  ~ subscribed sy -> trigger_key_down ev now sy = Ok sy.
Proof. intros H. apply fire_not_registered. assumption. Qed.

(** ** The invariant *)

Lemma inv_fresh sy : fresh sy -> inv sy.
Proof.
  intros [(ident & k & c & b & u & d & Hs) Hn].
  constructor; unfold registrations; rewrite Hs in *; simpl in *.
  - apply (count_occ_not_In Nat.eq_dec). assumption.
  - discriminate.
  - discriminate.
  - reflexivity.
Qed.

Lemma inv_enter now sy :
  inv sy -> phase (self sy) <> Active -> inv (enter now sy).
Proof.
  intros [Hr Hw _ _] Hp.
  assert (waiting (self sy) = false) as Hwf.
  { destruct (waiting (self sy)); [|reflexivity].
    destruct Hw as [Hw _]; [reflexivity|]. contradiction. }
  constructor; unfold registrations in *; simpl.
  - rewrite Hwf in *. assumption.
  - rewrite Hwf. discriminate.
  - intros _. split; [eexists; reflexivity|]. repeat split.
  - reflexivity.
Qed.

Lemma inv_idle sy :
  phase (self sy) <> Active -> waiting (self sy) = false ->
  registrations sy = 0%nat -> inv sy.
Proof.
  intros Hp Hw Hr. constructor; rewrite ?Hw; try assumption;
    try discriminate; intros; contradiction.
Qed.

Lemma inv_leave_active now sy :
  phase (self sy) = Active -> (registrations sy <= 1)%nat ->
  inv (leave now sy).
Proof.
  intros Hp Hr. destruct (leave_active now sy Hp) as (Hf & Hw & _ & Hl).
  apply inv_idle; [congruence|assumption|].
  unfold registrations in *.
  rewrite Hl, leave_kp_id, count_occ_remove_first_eq. lia.
Qed.

Lemma inv_registrations_le sy : inv sy -> (registrations sy <= 1)%nat.
Proof. intros [Hr _ _ _]. rewrite Hr. destruct (waiting _); lia. Qed.

Lemma inv_not_active_waiting sy :
  inv sy -> phase (self sy) <> Active -> waiting (self sy) = false.
Proof.
  intros [_ Hw _ _] Hp. destruct (waiting (self sy)); [|reflexivity].
  destruct Hw as [Hw _]; [reflexivity|]. contradiction.
Qed.

Lemma inv_leave now sy : inv sy -> inv (leave now sy).
Proof.
  intros Hinv. destruct (phase (self sy)) eqn:Hp;
    try (rewrite leave_not_active by congruence; assumption).
  apply inv_leave_active; [assumption|].
  apply inv_registrations_le. assumption.
Qed.

(** The state in which a tick reaches its time-based exits: subscribed,
    with a base time. *)
Lemma inv_before_exit w sy :
  inv sy -> phase (self sy) = Active ->
  let sy' := _callback_base_time w (_callback_subscribe sy) in
  inv sy' /\ waiting (self sy') = true /\ phase (self sy') = Active.
Proof.
  intros [Hr Hw Ha Hn] Hp. destruct (Ha Hp) as [[t Ht] Hno].
  unfold _callback_subscribe, _callback_base_time, registrations in *.
  destruct (waiting (self sy)) eqn:Hwt.
  - destruct (Hw eq_refl) as [_ [b Hb]]. rewrite Hb. simpl.
    split; [|auto]. constructor; unfold registrations; rewrite ?Hwt; eauto.
  - simpl. rewrite (Hn Hp eq_refl). simpl.
    destruct (val w (base_time_src (self sy))) as [b|] eqn:Hv; simpl;
      (split; [|auto]); constructor; unfold registrations; simpl;
      rewrite ?registered_for_add, ?count_occ_snoc_eq, ?Hr; eauto;
      try discriminate.
Qed.

Lemma inv_callback_exit w now sy sy' :
  inv sy -> _callback_exit w now sy = Ok sy' -> inv sy'.
Proof.
  intros Hinv. unfold _callback_exit.
  destruct (val w (wait_duration (self sy))) as [d|].
  - destruct (base_time (self sy)) as [b|]; [|discriminate].
    destruct (Z.geb now (b + d)).
    + intros [= <-]. apply inv_leave. assumption.
    + destruct (truthy _); intros [= <-]; [apply inv_leave|]; assumption.
  - destruct (truthy _); intros [= <-]; [apply inv_leave|]; assumption.
Qed.

Lemma inv_callback w now sy sy' :
  inv sy -> phase (self sy) = Active ->
  _callback w now sy = Ok sy' -> inv sy'.
Proof.
  intros Hinv Hp H. unfold _callback in H.
  apply inv_callback_exit in H; [assumption|].
  apply inv_before_exit; assumption.
Qed.

Lemma key_callback_accepted ev now sy b :
  accepts (keys (self sy)) ev = true -> base_time (self sy) = Some b ->
  _key_callback ev now sy = Ok (leave now (recorded ev b sy)).
Proof.
  intros Ha Hb. unfold _key_callback. rewrite Ha. simpl. rewrite Hb.
  reflexivity.
Qed.

Lemma key_callback_no_base_time ev now sy :
  accepts (keys (self sy)) ev = true -> base_time (self sy) = None ->
  exists sy', _key_callback ev now sy = Raised TypeError sy'.
Proof.
  intros Ha Hb. unfold _key_callback. rewrite Ha. simpl. rewrite Hb.
  eexists. reflexivity.
Qed.

Lemma key_callback_ignored ev now sy :
  accepts (keys (self sy)) ev = false -> _key_callback ev now sy = Ok sy.
Proof. intros Ha. unfold _key_callback. rewrite Ha. reflexivity. Qed.

Lemma recorded_frame ev b sy :
  callbacks (recorded ev b sy) = callbacks sy /\
  kp_id (self (recorded ev b sy)) = kp_id (self sy) /\
  phase (self (recorded ev b sy)) = phase (self sy) /\
  waiting (self (recorded ev b sy)) = waiting (self sy) /\
  base_time (self (recorded ev b sy)) = base_time (self sy).
Proof. unfold recorded. simpl. destruct (py_in _ _); simpl; auto. Qed.

Lemma inv_key_callback ev now sy sy' :
  inv sy -> _key_callback ev now sy = Ok sy' -> inv sy'.
Proof.
  intros Hinv. destruct (accepts (keys (self sy)) ev) eqn:Hacc.
  2:{ rewrite key_callback_ignored by assumption. intros [= <-]. assumption. }
  destruct (base_time (self sy)) as [b|] eqn:Hb.
  2:{ destruct (key_callback_no_base_time ev now sy Hacc Hb) as [x ->].
      discriminate. }
  rewrite (key_callback_accepted ev now sy b) by assumption. intros [= <-].
  destruct (recorded_frame ev b sy) as (Hc & Hi & Hp & Hw & _).
  assert (registrations (recorded ev b sy) = registrations sy) as Hreg.
  { unfold registrations. rewrite Hc, Hi. reflexivity. }
  destruct (phase (self sy)) eqn:Hph.
  - rewrite leave_not_active by congruence.
    pose proof (inv_not_active_waiting sy Hinv ltac:(congruence)) as Hwf.
    apply inv_idle; [congruence|congruence|].
    rewrite Hreg. destruct Hinv as [Hr _ _ _]. rewrite Hr, Hwf. reflexivity.
  - apply inv_leave_active; [congruence|].
    rewrite Hreg. apply inv_registrations_le. assumption.
  - rewrite leave_not_active by congruence.
    pose proof (inv_not_active_waiting sy Hinv ltac:(congruence)) as Hwf.
    apply inv_idle; [congruence|congruence|].
    rewrite Hreg. destruct Hinv as [Hr _ _ _]. rewrite Hr, Hwf. reflexivity.
Qed.

Lemma inv_fire cbs ev now : forall sy sy',
  inv sy -> fire cbs ev now sy = Ok sy' -> inv sy'.
Proof.
  induction cbs as [|cb rest IH]; simpl; intros sy sy' Hinv H.
  - injection H as <-. assumption.
  - destruct (Nat.eqb cb (kp_id (self sy))); [|eapply IH; eassumption].
    destruct (_key_callback ev now sy) as [sy1|e sy1] eqn:Hk; [|discriminate].
    eapply IH; [|eassumption]. eapply inv_key_callback; eassumption.
Qed.

Lemma inv_step i sy sy' : inv sy -> step i sy = Ok sy' -> inv sy'.
Proof.
  intros Hinv. destruct i as [now|w now|ev now|now|kind cb|kind cb]; simpl.
  - destruct (phase (self sy)) eqn:Hp; intros [= <-];
      try assumption; apply inv_enter; congruence.
  - destruct (phase (self sy)) eqn:Hp; try (intros [= <-]; assumption).
    apply inv_callback; assumption.
  - apply inv_fire. assumption.
  - intros [= <-]. apply inv_leave. assumption.
  - destruct (Nat.eqb_spec cb (kp_id (self sy))) as [|Hne];
      intros [= <-]; [assumption|].
    destruct Hinv as [Hr Hw Ha Hn].
    constructor; try assumption. unfold registrations in *. simpl.
    destruct (String.eqb_spec kind "KEY_DOWN") as [->|Hk].
    + rewrite registered_for_add, count_occ_snoc_ne; assumption.
    + rewrite registered_for_add_ne; assumption.
  - destruct (Nat.eqb_spec cb (kp_id (self sy))) as [|Hne];
      intros [= <-]; [assumption|].
    destruct Hinv as [Hr Hw Ha Hn].
    constructor; try assumption. unfold registrations in *. simpl.
    destruct (String.eqb_spec kind "KEY_DOWN") as [->|Hk].
    + rewrite registered_for_remove, count_occ_remove_first_ne; assumption.
    + rewrite registered_for_remove_ne; assumption.
Qed.

Lemma reachable_inv sy : reachable sy -> inv sy.
Proof.
  induction 1 as [sy Hf|i sy sy' _ IH Hs].
  - apply inv_fresh. assumption.
  - eapply inv_step; eassumption.
Qed.

Lemma reachable_run ins : forall sy sy',
  reachable sy -> run ins sy = Ok sy' -> reachable sy'.
Proof.
  induction ins as [|i rest IH]; simpl; intros sy sy' Hr H.
  - injection H as <-. assumption.
  - destruct (step i sy) as [sy1|e sy1] eqn:Hs; [|discriminate].
    eapply IH; [|eassumption]. eapply reachable_step; eassumption.
Qed.

(** ** What a poll tick does *)

Lemma leave_frame now sy :
  response (self (leave now sy)) = response (self sy) /\
  config (self (leave now sy)) = config (self sy).
Proof. unfold leave. destruct (phase (self sy)); simpl; auto. Qed.

Lemma before_exit_frame w sy :
  let sy' := _callback_base_time w (_callback_subscribe sy) in
  response (self sy') = response (self sy) /\
  config (self sy') = config (self sy) /\
  phase (self sy') = phase (self sy) /\
  waiting (self sy') = true /\
  base_time (self sy') = base_time_at_tick w (self sy).
Proof.
  unfold _callback_subscribe, _callback_base_time, base_time_at_tick.
  destruct (waiting (self sy)) eqn:Hw; simpl;
    destruct (base_time (self sy)) as [b|] eqn:Hb; simpl; rewrite ?Hb; auto;
    destruct (val w (base_time_src (self sy))); simpl; auto.
Qed.

Lemma before_exit_subscribed w sy :
  (waiting (self sy) = true -> subscribed sy) ->
  subscribed (_callback_base_time w (_callback_subscribe sy)).
Proof.
  intros H. unfold _callback_subscribe, _callback_base_time, subscribed in *.
  destruct (waiting (self sy)) eqn:Hw; simpl.
  - destruct (base_time (self sy)); simpl; [auto|].
    destruct (val w (base_time_src (self sy))); simpl; auto.
  - assert (In (kp_id (self sy))
              (registered_for "KEY_DOWN"
                 (add_callback "KEY_DOWN" (kp_id (self sy)) (callbacks sy)))).
    { rewrite registered_for_add. apply in_or_app. right. left. reflexivity. }
    destruct (base_time (self sy)); simpl; [assumption|].
    destruct (val w (base_time_src (self sy))); simpl; assumption.
Qed.

Lemma callback_active w now sy :
  inv sy -> phase (self sy) = Active ->
  let pre := _callback_base_time w (_callback_subscribe sy) in
  exists b, base_time_at_tick w (self sy) = Some b /\
    _callback w now sy
    = Ok (if tick_leaves w now b sy then leave now pre else pre).
Proof.
  intros Hinv Hp pre.
  destruct (inv_before_exit w sy Hinv Hp) as (Hinv' & Hw' & Hp').
  destruct (before_exit_frame w sy) as (_ & Hc & _ & _ & Hb).
  destruct (inv_waiting _ Hinv' Hw') as [_ [b Hb']].
  exists b. split; [congruence|].
  unfold _callback, _callback_exit, tick_leaves. fold pre.
  unfold config in Hc. injection Hc as _ _ _ _ Hd Hu.
  fold pre in Hb', Hd, Hu. rewrite Hd, Hu, Hb'.
  destruct (val w (wait_duration (self sy))) as [d|]; simpl.
  - destruct (Z.geb now (b + d)); simpl; [reflexivity|].
    destruct (truthy _); reflexivity.
  - destruct (truthy _); reflexivity.
Qed.

Lemma callback_frame w now sy sy' :
  _callback w now sy = Ok sy' ->
  response (self sy') = response (self sy) /\
  config (self sy') = config (self sy).
Proof.
  destruct (before_exit_frame w sy) as (Hr & Hc & _).
  unfold _callback, _callback_exit.
  set (pre := _callback_base_time w (_callback_subscribe sy)) in *.
  destruct (leave_frame now pre) as [Hlr Hlc].
  destruct (val w (wait_duration (self pre))) as [d|].
  - destruct (base_time (self pre)) as [b|]; [|discriminate].
    destruct (Z.geb now (b + d)); [intros [= <-]; split; congruence|].
    destruct (truthy _); intros [= <-]; split; congruence.
  - destruct (truthy _); intros [= <-]; split; congruence.
Qed.

(** ** What a key event does *)

Lemma accepts_iff ks ev :
  accepts ks ev = true
  <-> In PNone ks \/ In (PStr (upper (snd (keycode ev)))) ks.
Proof.
  unfold accepts, sym_str. rewrite orb_true_iff, py_in_none, py_in_str.
  reflexivity.
Qed.

Lemma recorded_response ev b sy :
  response (self (recorded ev b sy))
  = (sym_str ev, Some (event_time ev),
     py_in (PStr (sym_str ev)) (correct_resp (self sy)) || correct (self sy),
     Some (time (event_time ev) - b)).
Proof.
  unfold recorded, response. simpl. destruct (py_in _ _); reflexivity.
Qed.

Lemma recorded_config ev b sy :
  config (self (recorded ev b sy)) = config (self sy).
Proof. unfold recorded, config. simpl. destruct (py_in _ _); reflexivity. Qed.

Lemma fire_ignored ev now sy cbs :
  accepts (keys (self sy)) ev = false -> fire cbs ev now sy = Ok sy.
Proof.
  intros Ha. induction cbs as [|cb rest IH]; simpl; [reflexivity|].
  rewrite key_callback_ignored by assumption.
  destruct (Nat.eqb cb (kp_id (self sy))); assumption.
Qed.

Lemma key_callback_frame ev now sy sy' :
  _key_callback ev now sy = Ok sy' ->
  config (self sy') = config (self sy) /\
  (pressed (self sy') = pressed (self sy) \/ pressed (self sy') = sym_str ev).
Proof.
  destruct (accepts (keys (self sy)) ev) eqn:Ha.
  2:{ rewrite key_callback_ignored by assumption. intros [= <-]. auto. }
  destruct (base_time (self sy)) as [b|] eqn:Hb.
  2:{ destruct (key_callback_no_base_time ev now sy Ha Hb) as [x ->].
      discriminate. }
  rewrite (key_callback_accepted ev now sy b) by assumption. intros [= <-].
  destruct (leave_frame now (recorded ev b sy)) as [Hr Hc].
  rewrite Hc, recorded_config. split; [reflexivity|]. right.
  rewrite recorded_response in Hr. unfold response in Hr. congruence.
Qed.

Lemma fire_frame ev now cbs : forall sy sy',
  fire cbs ev now sy = Ok sy' ->
  config (self sy') = config (self sy) /\
  (pressed (self sy') = pressed (self sy) \/ pressed (self sy') = sym_str ev).
Proof.
  induction cbs as [|cb rest IH]; simpl; intros sy sy' H.
  - injection H as <-. auto.
  - destruct (Nat.eqb cb (kp_id (self sy))); [|apply IH; assumption].
    destruct (_key_callback ev now sy) as [sy1|e sy1] eqn:Hk; [|discriminate].
    apply key_callback_frame in Hk as [Hc1 Hp1].
    apply IH in H as [Hc2 Hp2]. split; [congruence|].
    destruct Hp2 as [Hp2|Hp2]; [|auto]. rewrite Hp2. assumption.
Qed.

(** ** Inputs that bring no accepted key; inputs after the exit *)


Lemma config_keys (s s' : @KeyPress world) :
  config s' = config s -> keys s' = keys s.
Proof. unfold config. congruence. Qed.


Lemma not_active_not_subscribed sy :
  inv sy -> phase (self sy) <> Active -> ~ subscribed sy.
Proof.
  intros Hinv Hp Hs. apply subscribed_iff_waiting in Hs; [|assumption].
  rewrite (inv_not_active_waiting sy Hinv Hp) in Hs. discriminate.
Qed.

Lemma step_after_exit i sy :
  inv sy -> phase (self sy) <> Active -> within_activation i = true ->
  exists sy', step i sy = Ok sy' /\ self sy' = self sy.
Proof.
  intros Hinv Hp Hw.
  destruct i as [now|w now|ev now|now|kind cb|kind cb]; simpl in *.
  - discriminate.
  - exists sy. destruct (phase (self sy)); auto. congruence.
  - exists sy. split; [|reflexivity].
    apply trigger_key_down_not_subscribed, not_active_not_subscribed;
      assumption.
  - exists sy. rewrite leave_not_active by assumption. auto.
  - destruct (Nat.eqb cb (kp_id (self sy))); eexists; split; reflexivity.
  - destruct (Nat.eqb cb (kp_id (self sy))); eexists; split; reflexivity.
Qed.

Lemma run_after_exit ins : forall sy,
  inv sy -> phase (self sy) <> Active ->
  forallb within_activation ins = true ->
  exists sy', run ins sy = Ok sy' /\ self sy' = self sy.
Proof.
  induction ins as [|i rest IH]; simpl; intros sy Hinv Hp Hw.
  - exists sy. auto.
  - apply andb_true_iff in Hw as [Hw1 Hw2].
    destruct (step_after_exit i sy Hinv Hp Hw1) as (sy1 & Hs & He).
    rewrite Hs. destruct (IH sy1) as (sy' & Hrun & He').
    + eapply inv_step; eassumption.
    + rewrite He. assumption.
    + assumption.
    + exists sy'. split; [assumption|congruence].
Qed.

(** ** The recorded key is uppercase *)

Lemma step_pressed i sy sy' :
  step i sy = Ok sy' -> has_lower (pressed (self sy)) = false ->
  has_lower (pressed (self sy')) = false.
Proof.
  destruct i as [now|w now|ev now|now|kind cb|kind cb]; simpl; intros H Hl.
  - destruct (phase (self sy)); injection H as <-; auto.
  - destruct (phase (self sy)); try (injection H as <-; assumption).
    apply callback_frame in H as [Hr _]. unfold response in Hr. congruence.
  - apply fire_frame in H as [_ [Hp|Hp]]; rewrite Hp; [assumption|].
    apply upper_has_no_lower.
  - injection H as <-. destruct (leave_frame now sy) as [Hr _].
    unfold response in Hr. congruence.
  - destruct (Nat.eqb cb (kp_id (self sy))); injection H as <-; assumption.
  - destruct (Nat.eqb cb (kp_id (self sy))); injection H as <-; assumption.
Qed.

Lemma reachable_pressed sy :
  reachable sy -> has_lower (pressed (self sy)) = false.
Proof.
  induction 1 as [sy [(ident & k & c & b & u & d & Hs) _]|i sy sy' _ IH Hs].
  - rewrite Hs. reflexivity.
  - eapply step_pressed; eassumption.
Qed.

(** Membership of an uppercased symbol does not see the lowercase entries. *)
Lemma py_in_skips_lowercase s k l1 l2 :
  has_lower k = true ->
  py_in (PStr (upper s)) (l1 ++ PStr k :: l2) = py_in (PStr (upper s)) (l1 ++ l2).
Proof.
  intros Hk. unfold py_in. rewrite !existsb_app. simpl.
  destruct (String.eqb_spec (upper s) k) as [E|_]; [|reflexivity].
  exfalso. revert E. apply upper_differs. assumption.
Qed.

Lemma py_in_none_skips_str k l1 l2 :
  py_in PNone (l1 ++ PStr k :: l2) = py_in PNone (l1 ++ l2).
Proof. unfold py_in. rewrite !existsb_app. reflexivity. Qed.

(** ** The default base time is the state time *)

Lemma leave_timing now sy :
  state_time (self (leave now sy)) = state_time (self sy) /\
  base_time (self (leave now sy)) = base_time (self sy).
Proof. unfold leave. destruct (phase (self sy)); simpl; auto. Qed.

Lemma key_callback_timing ev now sy sy' :
  _key_callback ev now sy = Ok sy' ->
  state_time (self sy') = state_time (self sy) /\
  base_time (self sy') = base_time (self sy).
Proof.
  unfold _key_callback. destruct (accepts _ _); [|intros [= <-]; auto].
  simpl. destruct (base_time (self sy)) as [b|] eqn:Hb; [|discriminate].
  intros [= <-].
  match goal with |- context [leave now ?x] =>
    destruct (leave_timing now x) as [-> ->] end.
  simpl. destruct (py_in _ _); simpl; auto.
Qed.

Lemma fire_timing ev now cbs : forall sy sy',
  fire cbs ev now sy = Ok sy' ->
  state_time (self sy') = state_time (self sy) /\
  base_time (self sy') = base_time (self sy).
Proof.
  induction cbs as [|cb rest IH]; simpl; intros sy sy' H.
  - injection H as <-. auto.
  - destruct (Nat.eqb cb (kp_id (self sy))); [|apply IH; assumption].
    destruct (_key_callback ev now sy) as [sy1|e sy1] eqn:Hk; [|discriminate].
    apply key_callback_timing in Hk as [H1 H2].
    apply IH in H as [H3 H4]. split; congruence.
Qed.

Lemma callback_timing w now sy sy' :
  _callback w now sy = Ok sy' ->
  state_time (self sy') = state_time (self sy) /\
  base_time (self sy') = base_time_at_tick w (self sy).
Proof.
  destruct (before_exit_frame w sy) as (_ & _ & _ & _ & Hb).
  assert (state_time (self (_callback_base_time w (_callback_subscribe sy)))
          = state_time (self sy)) as Hst.
  { unfold _callback_subscribe, _callback_base_time.
    destruct (waiting (self sy)); simpl;
      destruct (base_time (self sy)); simpl; auto;
      destruct (val w (base_time_src (self sy))); reflexivity. }
  unfold _callback, _callback_exit.
  set (pre := _callback_base_time w (_callback_subscribe sy)) in *.
  destruct (leave_timing now pre) as [Hl1 Hl2].
  destruct (val w (wait_duration (self pre))) as [d|].
  - destruct (base_time (self pre)) as [b|] eqn:Hbp; [|discriminate].
    destruct (Z.geb now (b + d)); [intros [= <-]; split; congruence|].
    destruct (truthy _); intros [= <-]; split; congruence.
  - destruct (truthy _); intros [= <-]; split; congruence.
Qed.

Lemma step_default_base_time i sy sy' :
  step i sy = Ok sy' ->
  base_time_src (self sy) = Lit None ->
  (forall b, base_time (self sy) = Some b -> state_time (self sy) = Some b) ->
  base_time_src (self sy') = Lit None /\
  forall b, base_time (self sy') = Some b -> state_time (self sy') = Some b.
Proof.
  destruct i as [now|w now|ev now|now|kind cb|kind cb]; simpl;
    intros H Hsrc Hb.
  - destruct (phase (self sy)); injection H as <-; simpl; auto;
      split; auto; discriminate.
  - destruct (phase (self sy)); try (injection H as <-; auto).
    destruct (callback_frame w now sy sy' H) as [_ Hc].
    destruct (callback_timing w now sy sy' H) as [Hst Hbt].
    unfold config in Hc. injection Hc as _ _ _ Hs _ _.
    split; [congruence|]. intros b. rewrite Hst, Hbt.
    unfold base_time_at_tick. rewrite Hsrc. simpl.
    destruct (base_time (self sy)) as [b0|]; [|auto].
    intros [= <-]. apply Hb. reflexivity.
  - destruct (fire_frame ev now _ sy sy' H) as [Hc _].
    destruct (fire_timing ev now _ sy sy' H) as [Hst Hbt].
    unfold config in Hc. injection Hc as _ _ _ Hs _ _.
    split; [congruence|]. intros b. rewrite Hst, Hbt. apply Hb.
  - injection H as <-. destruct (leave_frame now sy) as [_ Hc].
    destruct (leave_timing now sy) as [Hst Hbt].
    unfold config in Hc. injection Hc as _ _ _ Hs _ _.
    split; [congruence|]. intros b. rewrite Hst, Hbt. apply Hb.
  - destruct (Nat.eqb cb (kp_id (self sy))); injection H as <-; auto.
  - destruct (Nat.eqb cb (kp_id (self sy))); injection H as <-; auto.
Qed.

Lemma reachable_default_base_time sy :
  reachable sy -> base_time_src (self sy) = Lit None ->
  forall b, base_time (self sy) = Some b -> state_time (self sy) = Some b.
Proof.
  intros Hreach.
  enough (base_time_src (self sy) = Lit None ->
          base_time_src (self sy) = Lit None /\
          forall b, base_time (self sy) = Some b ->
                    state_time (self sy) = Some b) as H
    by (intros Hs; apply H; assumption).
  induction Hreach as [sy [(ident & k & c & b & u & d & Hs) _]|i sy sy' _ IH Hs].
  - rewrite Hs. simpl. intros ->. split; [reflexivity|discriminate].
  - intros Hsrc.
    assert (base_time_src (self sy) = Lit None) as Hsrc0.
    { destruct i as [now|w now|ev now|now|kind cb|kind cb]; simpl in Hs.
      - destruct (phase (self sy)); injection Hs as <-; assumption.
      - destruct (phase (self sy)); try (injection Hs as <-; assumption).
        destruct (callback_frame w now sy sy' Hs) as [_ Hc].
        unfold config in Hc. congruence.
      - destruct (fire_frame ev now _ sy sy' Hs) as [Hc _].
        unfold config in Hc. congruence.
      - injection Hs as <-. destruct (leave_frame now sy) as [_ Hc].
        unfold config in Hc. congruence.
      - destruct (Nat.eqb cb (kp_id (self sy))); injection Hs as <-;
          assumption.
      - destruct (Nat.eqb cb (kp_id (self sy))); injection Hs as <-;
          assumption. }
    destruct (IH Hsrc0) as [_ Hb].
    eapply step_default_base_time; eassumption.
Qed.

(** * The claims *)

(** C1. A key event delivered to an active, subscribed [KeyPress] whose
    uppercased key symbol is in [keys], or whose [keys] holds [None], is
    recorded: [pressed] is the uppercased symbol, [press_time] the time
    stamp of the event, [rt] the event time minus [base_time], and
    [correct] is true exactly when the recorded key is in [correct_resp]. *)
Theorem accepted_key_is_recorded ev now sy :
  reachable sy -> subscribed sy ->
  In PNone (keys (self sy))
  \/ In (PStr (upper (snd (keycode ev)))) (keys (self sy)) ->
  exists b sy',
    phase (self sy) = Active /\
    base_time (self sy) = Some b /\
    trigger_key_down ev now sy = Ok sy' /\
    pressed (self sy') = upper (snd (keycode ev)) /\
    press_time (self sy') = Some (event_time ev) /\
    rt (self sy') = Some (time (event_time ev) - b) /\
    correct_resp (self sy') = correct_resp (self sy) /\
    (correct (self sy') = true
     <-> In (PStr (pressed (self sy'))) (correct_resp (self sy'))).
Proof.
  intros Hreach Hsub Hacc. apply reachable_inv in Hreach as Hinv.
  apply accepts_iff in Hacc.
  pose proof (proj1 (subscribed_iff_waiting sy Hinv) Hsub) as Hw.
  destruct (inv_waiting sy Hinv Hw) as [Hp [b Hb]].
  destruct (inv_active sy Hinv Hp) as [_ (_ & _ & Hc & _)].
  exists b, (leave now (recorded ev b sy)).
  destruct (leave_frame now (recorded ev b sy)) as [Hr Hcf].
  rewrite recorded_response in Hr. rewrite recorded_config in Hcf.
  unfold response, config in Hr, Hcf.
  injection Hr as Hr1 Hr2 Hr3 Hr4. injection Hcf as _ _ Hcr _ _ _.
  rewrite trigger_key_down_subscribed, (key_callback_accepted ev now sy b)
    by assumption.
  repeat split; try assumption.
  - intros H. rewrite Hr1, Hcr, <- py_in_str.
    rewrite Hr3, Hc, orb_false_r in H. assumption.
  - intros H. rewrite Hr1, Hcr, <- py_in_str in H.
    rewrite Hr3, Hc, orb_false_r. assumption.
Qed.


(** C3, as amended. At a poll tick of an active [KeyPress] with a duration
    and no [until], the state leaves exactly when [now >= base_time +
    duration], where the base time is the one given at construction (as it
    evaluates when first read) or, when it gives none, the state time;
    before that the tick leaves the state active and subscribed. Without a
    base time argument this is [now >= state_time + duration]. *)
Theorem tick_timeout_against_base_time w now d sy :
  reachable sy -> phase (self sy) = Active ->
  val w (wait_duration (self sy)) = Some d ->
  wait_until (self sy) = Lit PNone ->
  exists b sy',
    base_time_at_tick w (self sy) = Some b /\
    _callback w now sy = Ok sy' /\
    base_time (self sy') = Some b /\
    (base_time_src (self sy) = Lit None -> state_time (self sy) = Some b) /\
    (b + d <= now -> phase (self sy') = Finished /\ ~ subscribed sy') /\
    (now < b + d -> phase (self sy') = Active /\ subscribed sy').
Proof.
  intros Hreach Hp Hd Hu. apply reachable_inv in Hreach as Hinv.
  destruct (callback_active w now sy Hinv Hp) as (b & Hb & Hc).
  assert (base_time_src (self sy) = Lit None -> state_time (self sy) = Some b)
    as Hdefault.
  { intros Hsrc. pose proof Hb as Hb'. unfold base_time_at_tick in Hb'.
    rewrite Hsrc in Hb'. simpl in Hb'.
    destruct (base_time (self sy)) as [b0|] eqn:Hb0; [|assumption].
    injection Hb' as <-. apply reachable_default_base_time; assumption. }
  destruct (inv_before_exit w sy Hinv Hp) as (Hinv' & Hw' & Hp').
  destruct (before_exit_frame w sy) as (_ & _ & _ & _ & Hbt).
  set (pre := _callback_base_time w (_callback_subscribe sy)) in *.
  unfold tick_leaves in Hc. rewrite Hd, Hu in Hc. simpl in Hc.
  rewrite orb_false_r in Hc.
  eexists b, _. split; [assumption|]. split; [exact Hc|].
  destruct (Z.geb_spec now (b + d)) as [Hge|Hlt].
  - destruct (leave_active now pre Hp') as (Hf & _ & _ & _).
    split; [|split; [assumption|split]].
    + destruct (leave_response now pre) as (_ & _ & _ & _ & Hlb). congruence.
    + intros _. split; [assumption|].
      apply not_active_not_subscribed; [apply inv_leave; assumption|].
      congruence.
    + intros H. lia.
  - split; [congruence|]. split; [assumption|]. split.
    + intros H. lia.
    + intros _. split; [assumption|].
      apply subscribed_iff_waiting; assumption.
Qed.

(** C4. The first accepted key event of an activation finishes the state
    through [leave] and unregisters the key callback; whatever follows in
    the same activation, key events included, leaves the state object, and
    so every response field, as it was. *)
Theorem first_accepted_key_finishes ev now ins sy :
  reachable sy -> subscribed sy ->
  In PNone (keys (self sy))
  \/ In (PStr (upper (snd (keycode ev)))) (keys (self sy)) ->
  forallb within_activation ins = true ->
  exists sy1 sy2,
    trigger_key_down ev now sy = Ok sy1 /\
    phase (self sy1) = Finished /\
    end_time (self sy1) = Some now /\
    ~ subscribed sy1 /\
    run ins sy1 = Ok sy2 /\
    self sy2 = self sy1 /\
    response (self sy2) = response (self sy1).
Proof.
  intros Hreach Hsub Hacc Hins. apply reachable_inv in Hreach as Hinv.
  apply accepts_iff in Hacc.
  pose proof (proj1 (subscribed_iff_waiting sy Hinv) Hsub) as Hw.
  destruct (inv_waiting sy Hinv Hw) as [Hp [b Hb]].
  pose proof (trigger_key_down_subscribed ev now sy Hinv Hsub) as Ht.
  rewrite (key_callback_accepted ev now sy b) in Ht by assumption.
  set (sy1 := leave now (recorded ev b sy)) in *.
  assert (inv sy1) as Hinv1.
  { eapply inv_fire; [exact Hinv|exact Ht]. }
  destruct (recorded_frame ev b sy) as (_ & _ & Hrp & _).
  destruct (leave_active now (recorded ev b sy)) as (Hf & _ & He & _);
    [congruence|].
  destruct (run_after_exit ins sy1) as (sy2 & Hrun & Heq);
    [assumption|subst sy1; congruence|assumption|].
  exists sy1, sy2. repeat split; try assumption.
  - apply not_active_not_subscribed; [assumption|]. subst sy1. congruence.
  - rewrite Heq. reflexivity.
Qed.


(** C6. Whatever step finishes the state, an accepted key press, a timeout
    at a poll tick or a [leave] forced by the parent, the key callback of
    the state is no longer registered for KEY_DOWN afterwards, and a key
    event delivered then does not reach the state. *)
Theorem exit_unregisters i ev now sy sy' :
  reachable sy -> step i sy = Ok sy' -> phase (self sy') = Finished ->
  registrations sy' = 0%nat /\
  ~ subscribed sy' /\
  waiting (self sy') = false /\
  trigger_key_down ev now sy' = Ok sy'.
Proof.
  intros Hreach Hs Hp.
  assert (inv sy') as Hinv.
  { eapply inv_step; [|exact Hs]. apply reachable_inv. assumption. }
  assert (phase (self sy') <> Active) as Hna by congruence.
  pose proof (not_active_not_subscribed sy' Hinv Hna) as Hns.
  pose proof (inv_not_active_waiting sy' Hinv Hna) as Hw.
  repeat split; try assumption.
  - rewrite (inv_registrations sy' Hinv), Hw. reflexivity.
  - apply trigger_key_down_not_subscribed. assumption.
Qed.

(** C7. Within a poll tick the subscription comes first: the time-based
    exits of [_callback] run on a state that has [waiting] set and its key
    callback registered. *)
Theorem subscription_precedes_exit_test w now sy :
  reachable sy ->
  let pre := _callback_base_time w (_callback_subscribe sy) in
  _callback w now sy = _callback_exit w now pre /\
  waiting (self (_callback_subscribe sy)) = true /\
  subscribed (_callback_subscribe sy) /\
  waiting (self pre) = true /\
  subscribed pre.
Proof.
  intros Hreach pre. apply reachable_inv in Hreach as Hinv.
  assert (waiting (self sy) = true -> subscribed sy) as Hws.
  { apply subscribed_iff_waiting. assumption. }
  split; [reflexivity|].
  destruct (before_exit_frame w sy) as (_ & _ & _ & Hw & _).
  pose proof (before_exit_subscribed w sy Hws) as Hsub.
  repeat split; try assumption.
  - unfold _callback_subscribe.
    destruct (waiting (self sy)) eqn:E; [assumption|reflexivity].
  - unfold _callback_subscribe, subscribed.
    destruct (waiting (self sy)) eqn:E; [apply Hws; reflexivity|]. simpl.
    rewrite registered_for_add. apply in_or_app. right. left. reflexivity.
Qed.

(** C8. A key event whose uppercased symbol is not in [keys], with no
    [None] in [keys], is ignored: the callback and the delivery return the
    system unchanged, so no response field changes, [leave] is not called
    and the state stays as active as it was. *)
Theorem unaccepted_key_is_ignored ev now sy :
  ~ In PNone (keys (self sy)) ->
  ~ In (PStr (upper (snd (keycode ev)))) (keys (self sy)) ->
  _key_callback ev now sy = Ok sy /\ trigger_key_down ev now sy = Ok sy.
Proof.
  intros Hn Hk.
  assert (accepts (keys (self sy)) ev = false) as Ha.
  { destruct (accepts (keys (self sy)) ev) eqn:E; [|reflexivity].
    apply accepts_iff in E as [E|E]; contradiction. }
  split; [apply key_callback_ignored|apply fire_ignored]; assumption.
Qed.

(** C9. The constructor wraps a [keys] or [correct_resp] argument that is
    not a list into a one-element list; with [keys=None] the accepted set
    is [[None]], and every key event is accepted. *)
Theorem init_wraps_non_lists ident k c k0 c0
    (b : @lazy world (option Z)) (u : @lazy world pyval)
    (d : @lazy world (option Z)) ev :
  is_list k = false -> is_list c = false ->
  keys (__init__ ident k c0 b u d) = [k] /\
  correct_resp (__init__ ident k0 c b u d) = [c] /\
  keys (__init__ ident PNone c0 b u d) = [PNone] /\
  correct_resp (__init__ ident k0 PNone b u d) = [PNone] /\
  accepts (keys (__init__ ident PNone c0 b u d)) ev = true.
Proof.
  intros Hk Hc. destruct k, c; try discriminate; repeat split.
Qed.

(** C10. The key callback matches on the uppercased key symbol: a key
    event delivered to a subscribed state finishes it exactly when [keys]
    holds [None] or the uppercased symbol, [pressed] then is the uppercased
    symbol, and [correct] becomes true exactly when the event is accepted
    and the uppercased symbol is in [correct_resp]. So an entry with a
    lowercase letter matches no event: with only such entries in [keys]
    every event is ignored, with only such entries in [correct_resp] no
    response is correct. The [pressed] field never holds a lowercase
    letter. *)
Theorem matching_is_on_uppercase ev now sy :
  reachable sy -> subscribed sy ->
  exists sy',
    trigger_key_down ev now sy = Ok sy' /\
    (phase (self sy') = Finished
     <-> In PNone (keys (self sy))
         \/ In (PStr (upper (snd (keycode ev)))) (keys (self sy))) /\
    (phase (self sy') = Finished ->
     pressed (self sy') = upper (snd (keycode ev))) /\
    (correct (self sy') = true
     <-> (In PNone (keys (self sy))
          \/ In (PStr (upper (snd (keycode ev)))) (keys (self sy)))
         /\ In (PStr (upper (snd (keycode ev)))) (correct_resp (self sy))) /\
    (~ In PNone (keys (self sy)) ->
     (forall k, In (PStr k) (keys (self sy)) -> has_lower k = true) ->
     sy' = sy) /\
    ((forall k, In (PStr k) (correct_resp (self sy)) -> has_lower k = true) ->
     correct (self sy') = false) /\
    (forall k, has_lower k = true ->
               PStr k <> PStr (upper (snd (keycode ev)))) /\
    has_lower (pressed (self sy)) = false /\
    has_lower (pressed (self sy')) = false.
Proof.
  intros Hreach Hsub. apply reachable_inv in Hreach as Hinv.
  pose proof (proj1 (subscribed_iff_waiting sy Hinv) Hsub) as Hw.
  destruct (inv_waiting sy Hinv Hw) as [Hp [b Hb]].
  destruct (inv_active sy Hinv Hp) as [_ (Hpr & _ & Hc & _)].
  assert (forall k, has_lower k = true ->
                    PStr k <> PStr (upper (snd (keycode ev)))) as Hdiff.
  { intros k Hk [= E]. symmetry in E. revert E. apply upper_differs.
    assumption. }
  assert (forall l : list pyval,
            (forall k, In (PStr k) l -> has_lower k = true) ->
            ~ In (PStr (upper (snd (keycode ev)))) l) as Hlow.
  { intros l Hl Hin. apply Hl in Hin.
    rewrite upper_has_no_lower in Hin. discriminate. }
  rewrite trigger_key_down_subscribed by assumption.
  destruct (accepts (keys (self sy)) ev) eqn:Ha.
  - rewrite (key_callback_accepted ev now sy b) by assumption.
    exists (leave now (recorded ev b sy)). split; [reflexivity|].
    destruct (leave_frame now (recorded ev b sy)) as [Hr _].
    rewrite recorded_response in Hr. unfold response in Hr.
    injection Hr as Hr1 _ Hr3 _. unfold sym_str in Hr1, Hr3.
    destruct (recorded_frame ev b sy) as (_ & _ & Hrp & _).
    destruct (leave_active now (recorded ev b sy)) as (Hf & _);
      [congruence|].
    apply accepts_iff in Ha.
    rewrite Hr3, Hc, orb_false_r.
    split; [split; auto|]. split; [auto|].
    split; [rewrite py_in_str; split; [auto|intros [_ H]; exact H]|].
    split.
    { intros Hn Hl. exfalso. destruct Ha as [Ha|Ha]; [contradiction|].
      revert Ha. apply Hlow. assumption. }
    split.
    { intros Hl. destruct (py_in _ _) eqn:E; [|reflexivity].
      apply py_in_str in E. exfalso. revert E. apply Hlow. assumption. }
    split; [assumption|]. split; [apply reachable_pressed; assumption|].
    rewrite Hr1. apply upper_has_no_lower.
  - rewrite key_callback_ignored by assumption.
    exists sy. split; [reflexivity|].
    assert (~ (In PNone (keys (self sy))
               \/ In (PStr (upper (snd (keycode ev)))) (keys (self sy))))
      as Hna.
    { intros H. apply accepts_iff in H. congruence. }
    split; [split; [congruence|contradiction]|]. split; [congruence|].
    split; [split; [congruence|intros [H _]; contradiction]|].
    split; [reflexivity|]. split; [auto|]. split; [assumption|].
    split; apply reachable_pressed; assumption.
Qed.

End Facts.

(** * The claims on the example states *)

Lemma jk_system_fresh : fresh jk_system.
Proof.
  split.
  - exists 7%nat, (PList [PStr "J"; PStr "K"]), (PStr "K"), (Lit None),
      (Lit PNone), (Lit (Some 2000)). reflexivity.
  - vm_compute. intros H. exact H.
Qed.

Lemma jk_entered_reachable : reachable jk_entered.
Proof.
  apply (reachable_step (Enter 1000) jk_system).
  - apply reachable_fresh, jk_system_fresh.
  - vm_compute. reflexivity.
Qed.

Lemma jk_waiting_reachable : reachable jk_waiting.
Proof.
  apply (reachable_step (Tick tt 1010) jk_entered).
  - apply jk_entered_reachable.
  - vm_compute. reflexivity.
Qed.

Lemma jk_waiting_subscribed : subscribed jk_waiting.
Proof. vm_compute. left. reflexivity. Qed.

Lemma jk_answered_reachable : reachable jk_answered.
Proof.
  apply (reachable_step (KeyDown (key "k" 1420) 1421) jk_waiting).
  - apply jk_waiting_reachable.
  - vm_compute. reflexivity.
Qed.

(** The scenario of the spec: with keys J and K and the correct response
    K, the key k pressed 420 ms after entry is recorded as K, correct, with
    a reaction time of 420 ms. *)
Lemma accepted_key_is_recorded_witness :
  exists sy',
    trigger_key_down (key "k" 1420) 1421 jk_waiting = Ok sy' /\
    pressed (self sy') = "K" /\
    press_time (self sy') = Some {| time := 1420; error := 0 |} /\
    rt (self sy') = Some 420 /\
    correct (self sy') = true.
Proof.
  destruct (accepted_key_is_recorded (key "k" 1420) 1421 jk_waiting
              jk_waiting_reachable jk_waiting_subscribed)
    as (b & sy' & _ & Hb & Ht & Hp & Hpt & Hrt & Hcr & Hc).
  - right. vm_compute. right. left. reflexivity.
  - exists sy'. vm_compute in Hb. injection Hb as <-.
    repeat split; try assumption.
    apply Hc. rewrite Hp, Hcr. vm_compute. left. reflexivity.
Defined.


(** Against the claim as the spec has it: a state entered at 100 with a
    duration of 5 and a base time of 10 leaves at the tick at 101, before
    the state time plus the duration. *)
Lemma tick_leaves_before_state_time_plus_duration :
  phase (self based_entered) = Active /\
  state_time (self based_entered) = Some 100 /\
  val tt (wait_duration (self based_entered)) = Some 5 /\
  wait_until (self based_entered) = Lit PNone /\
  101 < 100 + 5 /\
  exists sy',
    step (Tick tt 101) based_entered = Ok sy' /\ phase (self sy') = Finished.
Proof.
  repeat split; try lia.
  eexists. split; vm_compute; reflexivity.
Qed.

(** A value given as [until] is tested for truth, not compared with the
    clock: with [until=1000] and no duration the tick at 101 leaves. *)
Lemma tick_leaves_on_true_until :
  phase (self until_entered) = Active /\
  val tt (wait_duration (self until_entered)) = None /\
  val tt (wait_until (self until_entered)) = PInt 1000 /\
  exists sy',
    step (Tick tt 101) until_entered = Ok sy' /\ phase (self sy') = Finished.
Proof.
  repeat split. eexists. split; vm_compute; reflexivity.
Qed.


Lemma tick_timeout_against_base_time_witness :
  exists sy',
    _callback tt 2999 jk_entered = Ok sy' /\ phase (self sy') = Active.
Proof.
  destruct (tick_timeout_against_base_time tt 2999 2000 jk_entered
              jk_entered_reachable)
    as (b & sy' & Hb & Hc & _ & _ & _ & Hlt).
  - vm_compute. reflexivity.
  - vm_compute. reflexivity.
  - vm_compute. reflexivity.
  - exists sy'. split; [assumption|]. apply Hlt.
    vm_compute in Hb. injection Hb as <-. lia.
Defined.

Lemma first_accepted_key_finishes_witness :
  exists sy1 sy2,
    trigger_key_down (key "k" 1420) 1421 jk_waiting = Ok sy1 /\
    phase (self sy1) = Finished /\
    run [KeyDown (key "j" 1500) 1501; Tick tt 1600; Leave 1700] sy1 = Ok sy2 /\
    response (self sy2) = response (self sy1).
Proof.
  destruct (first_accepted_key_finishes (key "k" 1420) 1421
              [KeyDown (key "j" 1500) 1501; Tick tt 1600; Leave 1700]
              jk_waiting jk_waiting_reachable jk_waiting_subscribed)
    as (sy1 & sy2 & Ht & Hp & _ & _ & Hrun & _ & Hr).
  - right. vm_compute. right. left. reflexivity.
  - vm_compute. reflexivity.
  - exists sy1, sy2. repeat split; assumption.
Defined.


Lemma exit_unregisters_witness :
  registrations jk_timed_out = 0%nat /\
  ~ subscribed jk_timed_out /\
  waiting (self jk_timed_out) = false /\
  trigger_key_down (key "k" 3100) 3101 jk_timed_out = Ok jk_timed_out.
Proof.
  apply (exit_unregisters (Tick tt 3000) (key "k" 3100) 3101 jk_waiting).
  - apply jk_waiting_reachable.
  - vm_compute. reflexivity.
  - vm_compute. reflexivity.
Defined.

Lemma subscription_precedes_exit_test_witness :
  _callback tt 1010 jk_entered = _callback_exit tt 1010 jk_waiting /\
  waiting (self (_callback_subscribe jk_entered)) = true /\
  subscribed (_callback_subscribe jk_entered) /\
  waiting (self jk_waiting) = true /\
  subscribed jk_waiting.
Proof.
  apply (subscription_precedes_exit_test tt 1010 jk_entered).
  apply jk_entered_reachable.
Defined.

Lemma unaccepted_key_is_ignored_witness :
  _key_callback (key "q" 1500) 1501 jk_waiting = Ok jk_waiting /\
  trigger_key_down (key "q" 1500) 1501 jk_waiting = Ok jk_waiting.
Proof.
  apply (unaccepted_key_is_ignored (key "q" 1500) 1501 jk_waiting).
  - vm_compute. intros [H|[H|H]]; [discriminate H|discriminate H|exact H].
  - vm_compute. intros [H|[H|H]]; [discriminate H|discriminate H|exact H].
Defined.

Lemma init_wraps_non_lists_witness :
  keys (__init__ 1 (PStr "J") PNone (@Lit unit _ None) (Lit PNone)
          (Lit (Some (-1)))) = [PStr "J"] /\
  correct_resp (__init__ 1 PNone (PStr "K") (@Lit unit _ None) (Lit PNone)
                  (Lit (Some (-1)))) = [PStr "K"] /\
  keys (__init__ 1 PNone PNone (@Lit unit _ None) (Lit PNone)
          (Lit (Some (-1)))) = [PNone] /\
  correct_resp (__init__ 1 PNone PNone (@Lit unit _ None) (Lit PNone)
                  (Lit (Some (-1)))) = [PNone] /\
  accepts (keys (__init__ 1 PNone PNone (@Lit unit _ None) (Lit PNone)
                   (Lit (Some (-1))))) (key "q" 5) = true.
Proof.
  apply (init_wraps_non_lists 1 (PStr "J") (PStr "K") PNone PNone
           (@Lit unit _ None) (Lit PNone) (Lit (Some (-1))) (key "q" 5));
    reflexivity.
Defined.

Lemma lower_waiting_reachable : reachable lower_waiting.
Proof.
  apply (reachable_run [Enter 1000; Tick tt 1010]
           {| callbacks := ∅; self := lower_state |}).
  - apply reachable_fresh. split.
    + exists 11%nat, (PList [PStr "j"; PStr "K"]), (PStr "j"), (Lit None),
        (Lit PNone), (Lit (Some 2000)). reflexivity.
    + vm_compute. intros H. exact H.
  - vm_compute. reflexivity.
Qed.

(** With [keys=['j','K']] and [correct_resp='j'], the key j is ignored and
    the key k is accepted and not correct. *)
Lemma matching_is_on_uppercase_witness :
  trigger_key_down (key "j" 1420) 1421 lower_waiting = Ok lower_waiting /\
  exists sy',
    trigger_key_down (key "k" 1420) 1421 lower_waiting = Ok sy' /\
    phase (self sy') = Finished /\
    pressed (self sy') = "K" /\
    correct (self sy') = false.
Proof.
  assert (subscribed lower_waiting) as Hsub
    by (vm_compute; left; reflexivity).
  split.
  - destruct (matching_is_on_uppercase (key "j" 1420) 1421 lower_waiting
                lower_waiting_reachable Hsub)
      as (sy' & Ht & Hf & _).
    rewrite Ht. f_equal.
    destruct (phase (self sy')) eqn:Hp.
    + vm_compute in Ht. injection Ht as <-. reflexivity.
    + vm_compute in Ht. injection Ht as <-. reflexivity.
    + exfalso. destruct (proj1 Hf eq_refl) as [H|H]; vm_compute in H;
        intuition discriminate.
  - destruct (matching_is_on_uppercase (key "k" 1420) 1421 lower_waiting
                lower_waiting_reachable Hsub)
      as (sy' & Ht & Hf & Hpr & _ & _ & Hcl & _).
    exists sy'. split; [assumption|].
    assert (phase (self sy') = Finished) as Hfin.
    { apply Hf. right. vm_compute. right. left. reflexivity. }
    split; [assumption|]. split; [apply Hpr; assumption|].
    apply Hcl. intros k Hk. vm_compute in Hk.
    destruct Hk as [[= <-]|Hk]; [reflexivity|contradiction].
Defined.

(** * Further properties of the state *)

Section More.

Context {world : Type}.

Implicit Types (sy : @system world).

(** ** No input raises *)

Lemma key_callback_total ev now sy :
  inv sy -> subscribed sy -> exists sy', _key_callback ev now sy = Ok sy'.
Proof.
  intros Hinv Hsub.
  pose proof (proj1 (subscribed_iff_waiting sy Hinv) Hsub) as Hw.
  destruct (inv_waiting sy Hinv Hw) as [_ [b Hb]].
  destruct (accepts (keys (self sy)) ev) eqn:Ha.
  - rewrite (key_callback_accepted ev now sy b) by assumption. eauto.
  - rewrite key_callback_ignored by assumption. eauto.
Qed.

Lemma trigger_key_down_total ev now sy :
  inv sy -> exists sy', trigger_key_down ev now sy = Ok sy'.
Proof.
  intros Hinv. destruct (waiting (self sy)) eqn:Hw.
  - assert (subscribed sy) as Hsub by (apply subscribed_iff_waiting; assumption).
    rewrite trigger_key_down_subscribed by assumption.
    apply key_callback_total; assumption.
  - exists sy. apply trigger_key_down_not_subscribed. intros Hsub.
    apply subscribed_iff_waiting in Hsub; [congruence|assumption].
Qed.

Lemma step_total i sy : inv sy -> exists sy', step i sy = Ok sy'.
Proof.
  intros Hinv. destruct i as [now|w now|ev now|now|kind cb|kind cb]; simpl.
  - destruct (phase (self sy)); eauto.
  - destruct (phase (self sy)) eqn:Hp; eauto.
    destruct (callback_active w now sy Hinv Hp) as (b & _ & Hc). eauto.
  - apply trigger_key_down_total. assumption.
  - eauto.
  - destruct (Nat.eqb cb (kp_id (self sy))); eauto.
  - destruct (Nat.eqb cb (kp_id (self sy))); eauto.
Qed.

Lemma run_total ins : forall sy, inv sy -> exists sy', run ins sy = Ok sy'.
Proof.
  induction ins as [|i rest IH]; simpl; intros sy Hinv; [eauto|].
  destruct (step_total i sy Hinv) as [sy1 Hs]. rewrite Hs.
  apply IH. eapply inv_step; eassumption.
Qed.

(** X1. No input raises: from any system the scheduler can bring about,
    every sequence of entries, ticks, key events, forced leaves and foreign
    registrations runs to its end without an exception, and ends in a
    system the scheduler can bring about. *)
Theorem run_never_raises ins sy :
  reachable sy -> exists sy', run ins sy = Ok sy' /\ reachable sy'.
Proof.
  intros Hreach.
  destruct (run_total ins sy (reachable_inv sy Hreach)) as [sy' Hrun].
  exists sy'. split; [assumption|]. eapply reachable_run; eassumption.
Qed.

(** ** Poll ticks *)

(** X2. A poll tick of an active state never raises and ends the state
    exactly when the duration has elapsed since the base time or the value
    of [until] is true; in both cases by [leave], with the end time set to
    the clock reading. The value of [until] is tested for truth, the clock
    is not compared with it. *)
Theorem tick_exit_condition w now sy :
  reachable sy -> phase (self sy) = Active ->
  exists b sy',
    base_time_at_tick w (self sy) = Some b /\
    step (Tick w now) sy = Ok sy' /\
    (phase (self sy') = Finished
     <-> (exists d, val w (wait_duration (self sy)) = Some d /\ b + d <= now)
         \/ truthy (val w (wait_until (self sy))) = true) /\
    (phase (self sy') = Finished -> end_time (self sy') = Some now) /\
    (phase (self sy') <> Finished ->
     phase (self sy') = Active /\ subscribed sy').
Proof.
  intros Hreach Hp. apply reachable_inv in Hreach as Hinv.
  destruct (callback_active w now sy Hinv Hp) as (b & Hb & Hc).
  destruct (inv_before_exit w sy Hinv Hp) as (Hinv' & Hw' & Hp').
  set (pre := _callback_base_time w (_callback_subscribe sy)) in *.
  exists b. eexists. split; [assumption|]. simpl. rewrite Hp.
  split; [exact Hc|].
  assert (tick_leaves w now b sy = true
          <-> (exists d, val w (wait_duration (self sy)) = Some d /\ b + d <= now)
              \/ truthy (val w (wait_until (self sy))) = true) as Hiff.
  { unfold tick_leaves. rewrite orb_true_iff.
    destruct (val w (wait_duration (self sy))) as [d|].
    - destruct (Z.geb_spec now (b + d)) as [Hge|Hlt].
      + split; [|auto]. intros _. left. exists d. split; [reflexivity|lia].
      + split; intros [H|H]; auto; [discriminate|].
        destruct H as (d' & [= <-] & H). lia.
    - split; intros [H|H]; auto; [discriminate|].
      destruct H as (d' & H & _). discriminate. }
  destruct (tick_leaves w now b sy).
  - destruct (leave_active now pre Hp') as (Hf & _ & He & _).
    split; [|split].
    + split; [intros _; apply Hiff; reflexivity|intros _; assumption].
    + intros _. assumption.
    + intros H. contradiction.
  - split; [|split].
    + split; [intros H; congruence|].
      intros H. apply Hiff in H. discriminate.
    + intros H. congruence.
    + intros _. split; [assumption|].
      apply subscribed_iff_waiting; assumption.
Qed.

(** X3. A poll tick never touches the response fields, the configuration
    or the state time. *)
Theorem tick_keeps_response w now sy :
  reachable sy ->
  exists sy',
    step (Tick w now) sy = Ok sy' /\
    response (self sy') = response (self sy) /\
    config (self sy') = config (self sy) /\
    state_time (self sy') = state_time (self sy).
Proof.
  intros Hreach. apply reachable_inv in Hreach as Hinv.
  destruct (step_total (Tick w now) sy Hinv) as [sy' Hs].
  exists sy'. split; [assumption|]. simpl in Hs.
  destruct (phase (self sy)); try (injection Hs as <-; auto).
  destruct (callback_frame w now sy sy' Hs) as [Hr Hc].
  destruct (callback_timing w now sy sy' Hs) as [Hst _]. auto.
Qed.

(** X4. The key callback is registered for KEY_DOWN exactly once while the
    state waits and not at all otherwise, however many ticks have run; a
    waiting state is active. *)
Theorem registered_once_while_waiting sy :
  reachable sy ->
  registrations sy = (if waiting (self sy) then 1 else 0)%nat /\
  (subscribed sy <-> waiting (self sy) = true) /\
  (waiting (self sy) = true -> phase (self sy) = Active).
Proof.
  intros Hreach. apply reachable_inv in Hreach as Hinv.
  split; [apply inv_registrations; assumption|].
  split; [apply subscribed_iff_waiting; assumption|].
  intros Hw. apply (inv_waiting sy Hinv Hw).
Qed.

(** ** Waiting without a bound *)

Lemma step_idle i sy :
  inv sy -> phase (self sy) = Active ->
  wait_duration (self sy) = Lit None -> wait_until (self sy) = Lit PNone ->
  idle (keys (self sy)) i = true ->
  exists sy', step i sy = Ok sy' /\
    phase (self sy') = Active /\
    response (self sy') = response (self sy) /\
    config (self sy') = config (self sy).
Proof.
  intros Hinv Hp Hd Hu Hi.
  destruct i as [now|w now|ev now|now|kind cb|kind cb]; simpl in *;
    try discriminate.
  - rewrite Hp. destruct (callback_active w now sy Hinv Hp) as (b & _ & Hc).
    unfold tick_leaves in Hc. rewrite Hd, Hu in Hc. simpl in Hc.
    eexists. split; [exact Hc|].
    destruct (before_exit_frame w sy) as (Hr & Hcf & Hph & _).
    repeat split; congruence.
  - apply negb_true_iff in Hi. exists sy. split; [|auto].
    apply fire_ignored. assumption.
  - destruct (Nat.eqb cb (kp_id (self sy))); eexists; split;
      try reflexivity; auto.
  - destruct (Nat.eqb cb (kp_id (self sy))); eexists; split;
      try reflexivity; auto.
Qed.

Lemma run_idle ins : forall sy,
  inv sy -> phase (self sy) = Active ->
  wait_duration (self sy) = Lit None -> wait_until (self sy) = Lit PNone ->
  forallb (idle (keys (self sy))) ins = true ->
  exists sy', run ins sy = Ok sy' /\
    phase (self sy') = Active /\
    response (self sy') = response (self sy).
Proof.
  induction ins as [|i rest IH]; simpl; intros sy Hinv Hp Hd Hu Hi.
  - exists sy. auto.
  - apply andb_true_iff in Hi as [Hi1 Hi2].
    destruct (step_idle i sy Hinv Hp Hd Hu Hi1) as (sy1 & Hs & Hp1 & Hr1 & Hc1).
    rewrite Hs. unfold config in Hc1. injection Hc1 as _ Hk _ _ Hd1 Hu1.
    destruct (IH sy1) as (sy' & Hrun & Hp' & Hr'); try congruence.
    + eapply inv_step; eassumption.
    + exists sy'. repeat split; congruence.
Qed.

(** X5. A state built with the default duration [-1] and no [until] waits
    without a bound: once entered, no number of ticks, of keys outside the
    accepted set and of foreign registrations ends it, and its response
    fields stay at the no-response defaults. *)
Theorem default_duration_waits ident k c (b : @lazy world (option Z)) m t ins :
  let s := __init__ ident k c b (Lit PNone) (Lit (Some (-1))) in
  ~ In ident (registered_for "KEY_DOWN" m) ->
  forallb (idle (keys s)) ins = true ->
  exists sy',
    run (Enter t :: ins) {| callbacks := m; self := s |} = Ok sy' /\
    phase (self sy') = Active /\
    no_response (self sy').
Proof.
  intros s Hn Hi.
  set (sy := {| callbacks := m; self := s |}).
  assert (inv sy) as Hinv.
  { apply inv_fresh. split; [|exact Hn].
    exists ident, k, c, b, (Lit PNone), (Lit (Some (-1))). reflexivity. }
  assert (inv (enter t sy)) as Hinv1.
  { apply inv_enter; [assumption|]. simpl. discriminate. }
  destruct (run_idle ins (enter t sy) Hinv1 eq_refl eq_refl eq_refl Hi)
    as (sy' & Hrun & Hp & Hr).
  exists sy'. split; [exact Hrun|]. split; [exact Hp|].
  unfold response in Hr. simpl in Hr. injection Hr as H1 H2 H3 H4.
  repeat split; assumption.
Qed.

(** ** The base time *)

Lemma step_keeps_base_time i sy sy' b :
  step i sy = Ok sy' -> within_activation i = true ->
  base_time (self sy) = Some b -> base_time (self sy') = Some b.
Proof.
  destruct i as [now|w now|ev now|now|kind cb|kind cb]; simpl;
    intros H Hw Hb.
  - discriminate.
  - destruct (phase (self sy)); try (injection H as <-; assumption).
    destruct (callback_timing w now sy sy' H) as [_ Hbt].
    rewrite Hbt. unfold base_time_at_tick. rewrite Hb. reflexivity.
  - destruct (fire_timing ev now _ sy sy' H) as [_ Hbt]. congruence.
  - injection H as <-. destruct (leave_timing now sy) as [_ Hbt]. congruence.
  - destruct (Nat.eqb cb (kp_id (self sy))); injection H as <-; assumption.
  - destruct (Nat.eqb cb (kp_id (self sy))); injection H as <-; assumption.
Qed.

(** X6. The base time is read once per activation: once a tick has set it,
    it stays as it is until the state is entered again, whatever its
    source evaluates to at later ticks and also after the state has
    finished. *)
Theorem base_time_is_kept ins sy b :
  reachable sy -> base_time (self sy) = Some b ->
  forallb within_activation ins = true ->
  exists sy', run ins sy = Ok sy' /\ base_time (self sy') = Some b.
Proof.
  intros Hreach Hb Hw.
  destruct (run_total ins sy (reachable_inv sy Hreach)) as [sy' Hrun].
  exists sy'. split; [assumption|]. clear Hreach.
  revert sy Hb Hrun. induction ins as [|i rest IH]; simpl; intros sy Hb Hrun.
  - injection Hrun as <-. assumption.
  - simpl in Hw. apply andb_true_iff in Hw as [Hw1 Hw2].
    destruct (step i sy) as [sy1|e sy1] eqn:Hs; [|discriminate].
    apply (IH Hw2 sy1); [|assumption].
    eapply step_keeps_base_time; eassumption.
Qed.

Lemma step_tick_active w now sy :
  phase (self sy) = Active -> step (Tick w now) sy = _callback w now sy.
Proof. intros Hp. unfold step. rewrite Hp. reflexivity. Qed.

Lemma step_enter t sy :
  phase (self sy) <> Active -> step (Enter t) sy = Ok (enter t sy).
Proof. intros Hp. unfold step. destruct (phase (self sy)); congruence. Qed.

Lemma run_cons i rest sy :
  run (i :: rest) sy
  = match step i sy with
    | Ok sy' => run rest sy'
    | Raised e sy' => Raised e sy'
    end.
Proof. reflexivity. Qed.

Lemma first_tick w t now sy :
  inv sy -> phase (self sy) <> Active ->
  exists sy',
    run [Enter t; Tick w now] sy = Ok sy' /\
    state_time (self sy') = Some t /\
    base_time (self sy')
    = Some (match val w (base_time_src (self sy)) with
            | Some v => v
            | None => t
            end) /\
    config (self sy') = config (self sy).
Proof.
  intros Hinv Hp.
  assert (inv (enter t sy)) as Hinv1 by (apply inv_enter; assumption).
  assert (phase (self (enter t sy)) = Active) as Hp1 by reflexivity.
  destruct (callback_active w now (enter t sy) Hinv1 Hp1) as (b & Hb & Hc).
  rewrite run_cons, step_enter, run_cons, step_tick_active, Hc
    by assumption.
  eexists. split; [reflexivity|].
  destruct (callback_timing w now _ _ Hc) as [Hst Hbt].
  destruct (callback_frame w now _ _ Hc) as [_ Hcf].
  split; [rewrite Hst; reflexivity|]. split; [|rewrite Hcf; reflexivity].
  rewrite Hbt. unfold base_time_at_tick, enter, _enter. cbn.
  destruct (val w (base_time_src (self sy))); reflexivity.
Qed.

(** X7. Each activation takes its base time anew at its first tick: the
    value of the base time given at construction if it gives one then, and
    the time of this entry otherwise, whatever base time an earlier
    activation had. *)
Theorem base_time_of_an_activation w t now sy :
  reachable sy -> phase (self sy) <> Active ->
  exists sy',
    run [Enter t; Tick w now] sy = Ok sy' /\
    state_time (self sy') = Some t /\
    base_time (self sy')
    = Some (match val w (base_time_src (self sy)) with
            | Some v => v
            | None => t
            end).
Proof.
  intros Hreach Hp.
  destruct (first_tick w t now sy (reachable_inv sy Hreach) Hp)
    as (sy' & Hrun & Hst & Hbt & _).
  exists sy'. auto.
Qed.

(** X14. Entry, first tick and key press together: when the first tick
    leaves the state active, a key the state accepts is recorded with the
    reaction time measured from the base time given at construction, or
    from the time of this entry when none is given, and finishes the
    state at the clock reading of the callback. *)
Theorem reaction_time_of_an_activation w t now now' ev sy sy1 :
  reachable sy -> phase (self sy) <> Active ->
  run [Enter t; Tick w now] sy = Ok sy1 ->
  phase (self sy1) = Active ->
  accepts (keys (self sy)) ev = true ->
  exists sy2,
    trigger_key_down ev now' sy1 = Ok sy2 /\
    pressed (self sy2) = upper (snd (keycode ev)) /\
    rt (self sy2)
    = Some (time (event_time ev)
            - match val w (base_time_src (self sy)) with
              | Some v => v
              | None => t
              end) /\
    phase (self sy2) = Finished /\
    end_time (self sy2) = Some now'.
Proof.
  intros Hreach Hp Hrun Hp1 Ha.
  apply reachable_inv in Hreach as Hinv.
  destruct (first_tick w t now sy Hinv Hp) as (sy' & Hrun' & _ & Hb & Hcf).
  rewrite Hrun in Hrun'. injection Hrun' as <-.
  assert (inv sy1) as Hinv1.
  { apply reachable_inv. eapply reachable_run; eassumption. }
  assert (waiting (self sy1) = true) as Hw.
  { destruct (waiting (self sy1)) eqn:E; [reflexivity|].
    rewrite (inv_not_waiting sy1 Hinv1 Hp1 E) in Hb. discriminate. }
  assert (subscribed sy1) as Hsub
    by (apply subscribed_iff_waiting; assumption).
  rewrite <- (config_keys _ _ Hcf) in Ha.
  set (b := match val w (base_time_src (self sy)) with
            | Some v => v
            | None => t
            end) in *.
  rewrite trigger_key_down_subscribed,
    (key_callback_accepted ev now' sy1 b Ha Hb) by assumption.
  eexists. split; [reflexivity|].
  destruct (leave_frame now' (recorded ev b sy1)) as [Hr _].
  rewrite recorded_response in Hr. unfold response in Hr.
  injection Hr as Hr1 _ _ Hr4.
  destruct (recorded_frame ev b sy1) as (_ & _ & Hrp & _).
  destruct (leave_active now' (recorded ev b sy1)) as (Hf & _ & He & _);
    [congruence|].
  repeat split; assumption.
Qed.

(** ** Key events *)

(** Inside the tick that subscribes, between the subscription and the
    filling of the base time, every key the state accepts would make the
    callback raise. *)
Lemma key_callback_inside_subscribing_tick ev now sy :
  inv sy -> phase (self sy) = Active -> waiting (self sy) = false ->
  accepts (keys (self sy)) ev = true ->
  subscribed (_callback_subscribe sy) /\
  base_time (self (_callback_subscribe sy)) = None /\
  exists sy', _key_callback ev now (_callback_subscribe sy)
              = Raised TypeError sy'.
Proof.
  intros Hinv Hp Hw Ha.
  pose proof (inv_not_waiting sy Hinv Hp Hw) as Hb.
  assert (base_time (self (_callback_subscribe sy)) = None) as Hb'.
  { unfold _callback_subscribe. rewrite Hw. exact Hb. }
  split; [|split; [exact Hb'|]].
  - unfold _callback_subscribe, subscribed. rewrite Hw. simpl.
    rewrite registered_for_add. apply in_or_app. right. left. reflexivity.
  - apply key_callback_no_base_time; [|exact Hb'].
    unfold _callback_subscribe. rewrite Hw. exact Ha.
Qed.

(** X8. The key callback run on a state without a base time, on a key the
    state accepts, raises [TypeError] at the subtraction: [pressed] and
    [press_time] are already overwritten then, while [rt], [correct], the
    phase and the registry are as before, [leave] not being reached. *)
Theorem key_callback_without_base_time ev now sy :
  accepts (keys (self sy)) ev = true -> base_time (self sy) = None ->
  exists sy',
    _key_callback ev now sy = Raised TypeError sy' /\
    pressed (self sy') = upper (snd (keycode ev)) /\
    press_time (self sy') = Some (event_time ev) /\
    rt (self sy') = rt (self sy) /\
    correct (self sy') = correct (self sy) /\
    phase (self sy') = phase (self sy) /\
    waiting (self sy') = waiting (self sy) /\
    callbacks sy' = callbacks sy.
Proof.
  intros Ha Hb. unfold _key_callback. rewrite Ha. simpl. rewrite Hb.
  eexists. split; [reflexivity|]. repeat split.
Qed.

(** X9. A key event that comes after the entry and before the first poll
    tick does not reach the state, which subscribes only at its first tick:
    delivery leaves the system as it is. *)
Theorem key_before_first_tick_is_lost ev t now sy :
  reachable sy -> phase (self sy) <> Active ->
  step (Enter t) sy = Ok (enter t sy) /\
  ~ subscribed (enter t sy) /\
  trigger_key_down ev now (enter t sy) = Ok (enter t sy).
Proof.
  intros Hreach Hp. apply reachable_inv in Hreach as Hinv.
  assert (inv (enter t sy)) as Hinv1 by (apply inv_enter; assumption).
  assert (~ subscribed (enter t sy)) as Hns.
  { intros Hsub. apply subscribed_iff_waiting in Hsub; [|assumption].
    simpl in Hsub.
    rewrite (inv_not_active_waiting sy Hinv Hp) in Hsub. discriminate. }
  split; [apply step_enter; assumption|]. split; [assumption|].
  apply trigger_key_down_not_subscribed. assumption.
Qed.

(** ** The recorded response *)

Lemma answered_after_key ev now b sy :
  inv sy -> subscribed sy ->
  accepts (keys (self sy)) ev = true -> base_time (self sy) = Some b ->
  answered (self (leave now (recorded ev b sy))).
Proof.
  intros Hinv Hsub Ha Hb.
  pose proof (proj1 (subscribed_iff_waiting sy Hinv) Hsub) as Hw.
  destruct (inv_waiting sy Hinv Hw) as [Hp _].
  destruct (inv_active sy Hinv Hp) as [_ (_ & _ & Hc & _)].
  destruct (recorded_frame ev b sy) as (_ & _ & Hrp & _ & Hrb).
  destruct (leave_active now (recorded ev b sy)) as (Hf & Hlw & _ & _);
    [congruence|].
  destruct (leave_frame now (recorded ev b sy)) as [Hr Hcf].
  destruct (leave_timing now (recorded ev b sy)) as [_ Hbt].
  rewrite recorded_response in Hr. rewrite recorded_config in Hcf.
  unfold response, config in Hr, Hcf.
  injection Hr as Hr1 Hr2 Hr3 Hr4. injection Hcf as _ Hk Hcr _ _ _.
  exists (event_time ev), b. repeat split; try assumption.
  - congruence.
  - rewrite Hr3, Hr1, Hcr, Hc, orb_false_r. reflexivity.
  - rewrite Hr1, Hk. exact Ha.
Qed.

Lemma step_answered i sy sy' :
  inv sy -> step i sy = Ok sy' ->
  no_response (self sy) \/ answered (self sy) ->
  no_response (self sy') \/ answered (self sy').
Proof.
  intros Hinv Hs Hna.
  assert (self sy' = self sy -> no_response (self sy') \/ answered (self sy'))
    as Hsame by (intros ->; assumption).
  assert (forall x : @system world, response (self x) = response (self sy) ->
                    no_response (self sy) -> no_response (self x)) as Hnr.
  { unfold response. intros x [= H1 H2 H3 H4] (G1 & G2 & G3 & G4).
    repeat split; congruence. }
  destruct i as [now|w now|ev now|now|kind cb|kind cb]; simpl in Hs.
  - destruct (phase (self sy)); injection Hs as <-; auto;
      left; repeat split.
  - destruct (phase (self sy)) eqn:Hp; try (injection Hs as <-; auto).
    destruct (callback_frame w now sy sy' Hs) as [Hr _].
    left. apply Hnr; [assumption|]. apply (inv_active sy Hinv Hp).
  - destruct (waiting (self sy)) eqn:Hw.
    + assert (subscribed sy) as Hsub
        by (apply subscribed_iff_waiting; assumption).
      rewrite trigger_key_down_subscribed in Hs by assumption.
      destruct (inv_waiting sy Hinv Hw) as [Hp [b Hb]].
      destruct (accepts (keys (self sy)) ev) eqn:Ha.
      * rewrite (key_callback_accepted ev now sy b) in Hs by assumption.
        injection Hs as <-. right. apply answered_after_key; assumption.
      * rewrite key_callback_ignored in Hs by assumption.
        injection Hs as <-. assumption.
    + rewrite trigger_key_down_not_subscribed in Hs.
      * injection Hs as <-. assumption.
      * intros Hsub. apply subscribed_iff_waiting in Hsub; congruence.
  - injection Hs as <-. destruct (phase (self sy)) eqn:Hp;
      try (rewrite leave_not_active by congruence; assumption).
    left. destruct (leave_frame now sy) as [Hr _].
    apply Hnr; [assumption|]. apply (inv_active sy Hinv Hp).
  - destruct (Nat.eqb cb (kp_id (self sy))); injection Hs as <-; auto.
  - destruct (Nat.eqb cb (kp_id (self sy))); injection Hs as <-; auto.
Qed.

Lemma reachable_answered sy :
  reachable sy -> no_response (self sy) \/ answered (self sy).
Proof.
  induction 1 as [sy [(ident & k & c & b & u & d & Hs) _]|i sy sy' Hr IH Hs].
  - left. rewrite Hs. repeat split.
  - eapply step_answered; [apply reachable_inv|..]; eassumption.
Qed.

(** X10. The response fields are all of one piece: a state either holds
    the no-response defaults, or it is finished and unsubscribed and holds
    an uppercase key that passed the test against [keys], the time stamp of
    its event, the reaction time [press_time['time'] - base_time] and, as
    [correct], whether that key is in [correct_resp]. *)
Theorem response_is_consistent sy :
  reachable sy ->
  no_response (self sy) \/
  (phase (self sy) = Finished /\
   ~ subscribed sy /\
   has_lower (pressed (self sy)) = false /\
   (In PNone (keys (self sy)) \/ In (PStr (pressed (self sy))) (keys (self sy))) /\
   (correct (self sy) = true
    <-> In (PStr (pressed (self sy))) (correct_resp (self sy))) /\
   exists ts b,
     press_time (self sy) = Some ts /\
     base_time (self sy) = Some b /\
     rt (self sy) = Some (time ts - b)).
Proof.
  intros Hreach.
  destruct (reachable_answered sy Hreach)
    as [Hno|(ts & b & Hp & Hw & Hpt & Hb & Hrt & Hc & Hk)]; [left; assumption|].
  right. split; [assumption|]. split.
  { apply not_active_not_subscribed; [apply reachable_inv; assumption|].
    congruence. }
  split; [apply reachable_pressed; assumption|]. split.
  { apply orb_true_iff in Hk as [Hk|Hk];
      [left; apply py_in_none|right; apply py_in_str]; assumption. }
  split; [rewrite Hc; apply py_in_str|]. eauto.
Qed.

(** X11. With [correct_resp] left at its default, or holding no string,
    [correct] is never true, whatever key is recorded. *)
Theorem correct_needs_a_string sy :
  reachable sy ->
  (forall k, ~ In (PStr k) (correct_resp (self sy))) ->
  correct (self sy) = false.
Proof.
  intros Hreach Hn.
  destruct (reachable_answered sy Hreach)
    as [(_ & _ & Hc & _)|(ts & b & _ & _ & _ & _ & _ & Hc & _)];
    [assumption|].
  rewrite Hc. destruct (py_in _ _) eqn:E; [|reflexivity].
  apply py_in_str in E. apply Hn in E. contradiction.
Qed.

(** ** The registrations of others *)

Lemma filter_remove_first x l :
  List.filter (fun cb => negb (Nat.eqb cb x)) (remove_first x l)
  = List.filter (fun cb => negb (Nat.eqb cb x)) l.
Proof.
  induction l as [|y r IH]; simpl; [reflexivity|].
  destruct (Nat.eqb_spec x y) as [->|Hne].
  - rewrite Nat.eqb_refl. reflexivity.
  - simpl. rewrite IH. reflexivity.
Qed.

Lemma filter_snoc_self x l :
  List.filter (fun cb => negb (Nat.eqb cb x)) (l ++ [x])
  = List.filter (fun cb => negb (Nat.eqb cb x)) l.
Proof.
  rewrite List.filter_app. simpl. rewrite Nat.eqb_refl. simpl.
  apply app_nil_r.
Qed.

Lemma same_foreign_refl sy : same_foreign sy sy.
Proof. split; [reflexivity|]. intros kind. auto. Qed.

Lemma same_foreign_trans sy1 sy2 sy3 :
  same_foreign sy1 sy2 -> same_foreign sy2 sy3 -> same_foreign sy1 sy3.
Proof.
  intros [Hi1 H1] [Hi2 H2]. split; [congruence|]. intros kind.
  destruct (H1 kind) as [Hf1 Hr1]. destruct (H2 kind) as [Hf2 Hr2].
  split; [congruence|]. intros Hk. rewrite Hr2, Hr1 by assumption.
  reflexivity.
Qed.

Lemma same_foreign_self sy (s : @KeyPress world) :
  kp_id s = kp_id (self sy) -> same_foreign sy (with_self s sy).
Proof.
  intros Hi. split; [assumption|]. intros kind. unfold foreign. simpl.
  rewrite Hi. auto.
Qed.

Lemma same_foreign_add sy :
  same_foreign sy
    (with_callbacks
       (add_callback "KEY_DOWN" (kp_id (self sy)) (callbacks sy)) sy).
Proof.
  split; [reflexivity|]. intros kind. unfold foreign. simpl.
  destruct (String.eqb_spec kind "KEY_DOWN") as [->|Hk].
  - rewrite registered_for_add, filter_snoc_self. split; [reflexivity|].
    congruence.
  - rewrite registered_for_add_ne by congruence. auto.
Qed.

Lemma same_foreign_remove sy :
  same_foreign sy
    (with_callbacks
       (remove_callback "KEY_DOWN" (kp_id (self sy)) (callbacks sy)) sy).
Proof.
  split; [reflexivity|]. intros kind. unfold foreign. simpl.
  destruct (String.eqb_spec kind "KEY_DOWN") as [->|Hk].
  - rewrite registered_for_remove, filter_remove_first. split; [reflexivity|].
    congruence.
  - rewrite registered_for_remove_ne by congruence. auto.
Qed.

Lemma same_foreign_leave now sy : same_foreign sy (leave now sy).
Proof.
  unfold leave. destruct (phase (self sy)); try apply same_foreign_refl.
  unfold _leave.
  eapply same_foreign_trans; [apply same_foreign_remove|].
  eapply same_foreign_trans; apply same_foreign_self; reflexivity.
Qed.

Lemma same_foreign_before_exit w sy :
  same_foreign sy (_callback_base_time w (_callback_subscribe sy)).
Proof.
  assert (same_foreign sy (_callback_subscribe sy)) as H1.
  { unfold _callback_subscribe.
    destruct (waiting (self sy)); [apply same_foreign_refl|].
    eapply same_foreign_trans; [apply same_foreign_add|].
    apply same_foreign_self. reflexivity. }
  eapply same_foreign_trans; [exact H1|].
  unfold _callback_base_time.
  destruct (base_time (self (_callback_subscribe sy)));
    [apply same_foreign_refl|]. simpl.
  destruct (val w (base_time_src (self (_callback_subscribe sy))));
    apply same_foreign_self; reflexivity.
Qed.

Lemma same_foreign_callback w now sy sy' :
  _callback w now sy = Ok sy' -> same_foreign sy sy'.
Proof.
  pose proof (same_foreign_before_exit w sy) as Hpre.
  unfold _callback, _callback_exit.
  set (pre := _callback_base_time w (_callback_subscribe sy)) in *.
  pose proof (same_foreign_leave now pre) as Hl.
  destruct (val w (wait_duration (self pre))) as [d|].
  - destruct (base_time (self pre)) as [b|]; [|discriminate].
    destruct (Z.geb now (b + d));
      [intros [= <-]; eapply same_foreign_trans; eassumption|].
    destruct (truthy _); intros [= <-];
      [eapply same_foreign_trans; eassumption|assumption].
  - destruct (truthy _); intros [= <-];
      [eapply same_foreign_trans; eassumption|assumption].
Qed.

Lemma same_foreign_key_callback ev now sy sy' :
  _key_callback ev now sy = Ok sy' -> same_foreign sy sy'.
Proof.
  destruct (accepts (keys (self sy)) ev) eqn:Ha.
  2:{ rewrite key_callback_ignored by assumption. intros [= <-].
      apply same_foreign_refl. }
  destruct (base_time (self sy)) as [b|] eqn:Hb.
  2:{ destruct (key_callback_no_base_time ev now sy Ha Hb) as [x ->].
      discriminate. }
  rewrite (key_callback_accepted ev now sy b) by assumption. intros [= <-].
  eapply same_foreign_trans; [|apply same_foreign_leave].
  unfold recorded. apply same_foreign_self.
  destruct (py_in _ _); reflexivity.
Qed.

Lemma same_foreign_fire ev now cbs : forall sy sy',
  fire cbs ev now sy = Ok sy' -> same_foreign sy sy'.
Proof.
  induction cbs as [|cb rest IH]; simpl; intros sy sy' H.
  - injection H as <-. apply same_foreign_refl.
  - destruct (Nat.eqb cb (kp_id (self sy))); [|apply IH; assumption].
    destruct (_key_callback ev now sy) as [sy1|e sy1] eqn:Hk; [|discriminate].
    eapply same_foreign_trans; [eapply same_foreign_key_callback|apply IH];
      eassumption.
Qed.

(** X12. Whatever the state does, on entry, at a tick, on a key event or
    on leaving, it adds and removes only its own KEY_DOWN registration: the
    registrations of other kinds and, in their order, the KEY_DOWN
    registrations of other owners stay as they are. *)
Theorem state_touches_only_its_registration i sy :
  reachable sy -> own_input i = true ->
  exists sy', step i sy = Ok sy' /\ same_foreign sy sy'.
Proof.
  intros Hreach Ho.
  destruct (step_total i sy (reachable_inv sy Hreach)) as [sy' Hs].
  exists sy'. split; [assumption|].
  destruct i as [now|w now|ev now|now|kind cb|kind cb]; simpl in *;
    try discriminate.
  - destruct (phase (self sy)); injection Hs as <-;
      try apply same_foreign_refl; apply same_foreign_self; reflexivity.
  - destruct (phase (self sy)); try (injection Hs as <-; apply same_foreign_refl).
    eapply same_foreign_callback. eassumption.
  - eapply same_foreign_fire. eassumption.
  - injection Hs as <-. apply same_foreign_leave.
Qed.

(** ** The accepted set of a single key *)

(** X13. A [keys] argument that is not a list stands for itself as the one
    accepted entry: the state accepts a key event exactly when the argument
    is [None] or is the string equal to the uppercased key symbol; a string
    of several letters is one entry, not a set of letters. *)
Theorem single_key_accepts ident k c (b : @lazy world (option Z))
    (u : @lazy world pyval) (d : @lazy world (option Z)) ev :
  is_list k = false ->
  accepts (keys (__init__ ident k c b u d)) ev = true
  <-> k = PNone \/ k = PStr (upper (snd (keycode ev))).
Proof.
  intros Hk.
  assert (keys (__init__ ident k c b u d) = [k]) as ->
    by (destruct k; try discriminate; reflexivity).
  rewrite accepts_iff. simpl. split.
  - intros [[H|[]]|[H|[]]]; auto.
  - intros [H|H]; [left|right]; left; assumption.
Qed.

End More.

(** * The further properties on the example states *)

Lemma any_key_answered_reachable : reachable any_key_answered.
Proof.
  assert (reachable any_key_system) as H0.
  { apply reachable_fresh. split.
    - exists 5%nat, PNone, PNone, (Lit None), (Lit PNone), (Lit (Some (-1))).
      reflexivity.
    - vm_compute. intros [H|H]; [discriminate H|exact H]. }
  apply (reachable_run
           [Enter 500; Tick tt 510; KeyDown (key "spacebar" 760) 761]
           any_key_system); [exact H0|].
  vm_compute. reflexivity.
Qed.

Lemma any_key_entered_reachable : reachable any_key_entered.
Proof.
  apply (reachable_step (Enter 500) any_key_system).
  - apply reachable_fresh. split.
    + exists 5%nat, PNone, PNone, (Lit None), (Lit PNone), (Lit (Some (-1))).
      reflexivity.
    + vm_compute. intros [H|H]; [discriminate H|exact H].
  - vm_compute. reflexivity.
Qed.

Lemma run_never_raises_witness :
  exists sy',
    run [KeyDown (key "q" 1100) 1101; Tick tt 1200; Leave 1300; Enter 2000;
         Tick tt 2010; KeyDown (key "j" 2500) 2501] jk_waiting = Ok sy' /\
    reachable sy'.
Proof.
  apply (run_never_raises
           [KeyDown (key "q" 1100) 1101; Tick tt 1200; Leave 1300; Enter 2000;
            Tick tt 2010; KeyDown (key "j" 2500) 2501] jk_waiting).
  apply jk_waiting_reachable.
Defined.

Lemma tick_exit_condition_witness :
  exists sy',
    step (Tick tt 3000) jk_waiting = Ok sy' /\
    phase (self sy') = Finished /\
    end_time (self sy') = Some 3000.
Proof.
  destruct (tick_exit_condition tt 3000 jk_waiting jk_waiting_reachable)
    as (b & sy' & Hb & Hs & Hiff & He & _).
  - vm_compute. reflexivity.
  - exists sy'. split; [assumption|].
    assert (phase (self sy') = Finished) as Hf.
    { apply Hiff. left. exists 2000. split; [vm_compute; reflexivity|].
      vm_compute in Hb. injection Hb as <-. lia. }
    split; [assumption|]. apply He. assumption.
Defined.

Lemma tick_keeps_response_witness :
  exists sy',
    step (Tick tt 1500) jk_waiting = Ok sy' /\
    response (self sy') = response (self jk_waiting) /\
    config (self sy') = config (self jk_waiting) /\
    state_time (self sy') = state_time (self jk_waiting).
Proof.
  apply (tick_keeps_response tt 1500 jk_waiting). apply jk_waiting_reachable.
Defined.

Lemma registered_once_while_waiting_witness :
  registrations jk_waiting = (if waiting (self jk_waiting) then 1 else 0)%nat /\
  (subscribed jk_waiting <-> waiting (self jk_waiting) = true) /\
  (waiting (self jk_waiting) = true -> phase (self jk_waiting) = Active).
Proof.
  apply (registered_once_while_waiting jk_waiting). apply jk_waiting_reachable.
Defined.

Lemma default_duration_waits_witness :
  exists sy',
    run [Enter 0; Tick tt 10; KeyDown (key "q" 20) 21; Tick tt 100000]
      {| callbacks := ∅;
         self := __init__ 6 (PList [PStr "J"]) PNone (@Lit unit _ None)
                   (Lit PNone) (Lit (Some (-1))) |} = Ok sy' /\
    phase (self sy') = Active /\
    no_response (self sy').
Proof.
  apply (default_duration_waits 6 (PList [PStr "J"]) PNone (@Lit unit _ None)
           ∅ 0 [Tick tt 10; KeyDown (key "q" 20) 21; Tick tt 100000]).
  - vm_compute. intros H. exact H.
  - vm_compute. reflexivity.
Defined.

Lemma base_time_is_kept_witness :
  exists sy',
    run [Tick tt 1500; KeyDown (key "k" 1600) 1601; Tick tt 1700] jk_waiting
    = Ok sy' /\
    base_time (self sy') = Some 1000.
Proof.
  apply (base_time_is_kept
           [Tick tt 1500; KeyDown (key "k" 1600) 1601; Tick tt 1700]
           jk_waiting 1000).
  - apply jk_waiting_reachable.
  - vm_compute. reflexivity.
  - vm_compute. reflexivity.
Defined.

Lemma base_time_of_an_activation_witness :
  exists sy',
    run [Enter 5000; Tick tt 5010] jk_answered = Ok sy' /\
    state_time (self sy') = Some 5000 /\
    base_time (self sy') = Some 5000.
Proof.
  apply (base_time_of_an_activation tt 5000 5010 jk_answered).
  - apply jk_answered_reachable.
  - vm_compute. discriminate.
Defined.

Lemma reaction_time_of_an_activation_witness :
  exists sy2,
    trigger_key_down (key "k" 5420) 5421 jk_again = Ok sy2 /\
    pressed (self sy2) = "K" /\
    rt (self sy2) = Some 420 /\
    phase (self sy2) = Finished /\
    end_time (self sy2) = Some 5421.
Proof.
  apply (reaction_time_of_an_activation tt 5000 5010 5421 (key "k" 5420)
           jk_answered jk_again).
  - apply jk_answered_reachable.
  - vm_compute. discriminate.
  - vm_compute. reflexivity.
  - vm_compute. reflexivity.
  - vm_compute. reflexivity.
Defined.

Lemma key_callback_without_base_time_witness :
  exists sy',
    _key_callback (key "k" 1005) 1006 jk_entered = Raised TypeError sy' /\
    pressed (self sy') = "K" /\
    press_time (self sy') = Some {| time := 1005; error := 0 |} /\
    rt (self sy') = rt (self jk_entered) /\
    correct (self sy') = correct (self jk_entered) /\
    phase (self sy') = phase (self jk_entered) /\
    waiting (self sy') = waiting (self jk_entered) /\
    callbacks sy' = callbacks jk_entered.
Proof.
  apply (key_callback_without_base_time (key "k" 1005) 1006 jk_entered).
  - vm_compute. reflexivity.
  - vm_compute. reflexivity.
Defined.

Lemma key_before_first_tick_is_lost_witness :
  step (Enter 1000) jk_system = Ok jk_entered /\
  ~ subscribed jk_entered /\
  trigger_key_down (key "k" 1005) 1006 jk_entered = Ok jk_entered.
Proof.
  apply (key_before_first_tick_is_lost (key "k" 1005) 1000 1006 jk_system).
  - apply reachable_fresh, jk_system_fresh.
  - vm_compute. discriminate.
Defined.

Lemma response_is_consistent_witness :
  phase (self jk_answered) = Finished /\
  correct (self jk_answered) = true /\
  rt (self jk_answered) = Some 420.
Proof.
  destruct (response_is_consistent jk_answered jk_answered_reachable)
    as [(Hp & _)|(Hf & _ & _ & _ & Hc & ts & b & Hpt & Hb & Hrt)].
  - vm_compute in Hp. discriminate Hp.
  - split; [assumption|]. split.
    + apply Hc. vm_compute. left. reflexivity.
    + rewrite Hrt. vm_compute in Hpt, Hb.
      injection Hpt as <-. injection Hb as <-. reflexivity.
Defined.

Lemma correct_needs_a_string_witness : correct (self any_key_answered) = false.
Proof.
  apply (correct_needs_a_string any_key_answered).
  - apply any_key_answered_reachable.
  - intros k. vm_compute. intros [H|H]; [discriminate H|exact H].
Defined.

Lemma state_touches_only_its_registration_witness :
  exists sy',
    step (Tick tt 510) any_key_entered = Ok sy' /\
    same_foreign any_key_entered sy'.
Proof.
  apply (state_touches_only_its_registration (Tick tt 510) any_key_entered).
  - apply any_key_entered_reachable.
  - reflexivity.
Defined.

Lemma single_key_accepts_witness :
  accepts (keys (__init__ 1 (PStr "JK") PNone (@Lit unit _ None) (Lit PNone)
                   (Lit (Some (-1))))) (key "j" 5) = true
  <-> PStr "JK" = PNone \/ PStr "JK" = PStr (upper (snd (keycode (key "j" 5)))).
Proof.
  apply (single_key_accepts 1 (PStr "JK") PNone (@Lit unit _ None) (Lit PNone)
           (Lit (Some (-1))) (key "j" 5)).
  reflexivity.
Defined.
